(** * A shallow embedding of the DNS-over-QUIC ingress path and of the
      forwarding proxy of scion-coredns-doq.

    These parts of the repository are embedded:

    - package [dnsserver] : the stream handler of the QUIC server
      ([ServerQUIC.handleQUICStream]), its SCION twin
      ([ServerSQUIC.handleQUICStream]) and [addPrefix]; the goroutine that
      [handleQUICSession] starts for a stream; [ServePacket] and [Stop];
    - [plugin/pkg/proxy/connect.go] : [limitTimeout], [averageTimeout],
      [Transport.Dial] and [Proxy.Connect];
    - [plugin/file/secondary.go] : [less] and [Zone.shouldTransfer];
    - [plugin/pkg/nonwriter] and the scrub writers of package [request];
    - [plugin/pkg/dnsutil/reverse.go] : the functions on reverse names
      that do not call into pan.

    Go integers are modelled as [Z]; an [int64] result is wrapped with
    [wrap64], a [uint16] conversion with [uint16].  Byte slices are
    [list byte].  Calls into libraries that are not part of the repository
    (miekg/dns, quic-go, net/url, pan) are parameters of the sections below;
    their observable effects are recorded in an event trace. *)

From Stdlib Require Import ZArith List Bool Lia String Ascii.
From Stdlib Require Import Init.Byte Strings.Byte.
Import ListNotations.

Local Open Scope string_scope.
Local Open Scope list_scope.
Local Open Scope Z_scope.

(* ================================================================== *)
(** ** Bytes and big-endian 16-bit words *)

Definition Z_of_byte (b : byte) : Z := Z.of_N (Byte.to_N b).

(** Go's conversion [byte(v)]: the low eight bits. *)
Definition byte_of_Z (z : Z) : byte :=
  match Byte.of_N (Z.to_N (z mod 256)) with
  | Some b => b
  | None => x00
  end.

(** Go's conversion [uint16(v)] of an [int]. *)
Definition uint16 (z : Z) : Z := z mod 65536.

(** Go's [len] of a slice, as an [int]. *)
Definition len {A : Type} (l : list A) : Z := Z.of_nat (List.length l).

(** [make([]byte, n)]. *)
Definition make (n : Z) : list byte := repeat x00 (Z.to_nat n).

(** [binary.BigEndian.PutUint16(m, v)]: writes [byte(v >> 8)] at index 0
    and [byte(v)] at index 1.  The library panics when [len(m) < 2]; the
    only caller, [addPrefix], always passes a slice of at least two bytes,
    and the model leaves a shorter slice unchanged. *)
Definition PutUint16 (m : list byte) (v : Z) : list byte :=
  match m with
  | _ :: _ :: rest => byte_of_Z (Z.shiftr v 8) :: byte_of_Z v :: rest
  | _ => m
  end.

(** [binary.BigEndian.Uint16(b)]: [uint16(b[1]) | uint16(b[0])<<8].  The
    library panics when [len(b) < 2]; the handler only calls it on the
    first two bytes of the 65535-byte pooled buffer. *)
Definition Uint16 (b : list byte) : Z :=
  match b with
  | b0 :: b1 :: _ => Z.lor (Z_of_byte b1) (Z.shiftl (Z_of_byte b0) 8)
  | _ => 0
  end.

(** The builtin [copy(dst, src)] where [dst] is [m[off:]]: overwrites
    [min(len(m) - off, len(src))] bytes of [m] starting at [off]. *)
Definition copy_at (off : nat) (m src : list byte) : list byte :=
  firstn off m
  ++ firstn (List.length m - off) src
  ++ skipn (off + List.length src) m.

(** [addPrefix] adds a 2-byte prefix with the DNS message length. *)
Definition addPrefix (b : list byte) : list byte :=
  let m := make (2 + len b) in
  let m := PutUint16 m (uint16 (len b)) in
  copy_at 2 m b.

(* ================================================================== *)
(** ** Errors and DNS messages *)

(** Go [error] values, by the distinctions the code makes: the sentinel
    [io.EOF], the proxy's sentinel [ErrCachedClosed], errors whose dynamic
    type implements [net.Error] (time-outs among them), and all others. *)
Inductive error : Type :=
| io_EOF
| ErrCachedClosed
| net_Error (timeout : bool) (text : string)
| other_error (text : string).

(** The type assertion [err.(net.Error)]. *)
Definition is_net_Error (e : error) : bool :=
  match e with
  | net_Error _ _ => true
  | _ => false
  end.

(** The comparison [err == io.EOF]. *)
Definition is_EOF (e : error) : bool :=
  match e with
  | io_EOF => true
  | _ => false
  end.

(** Resource records, as far as the handler looks at them: an OPT record
    with the codes of its EDNS0 options, or a record of another type. *)
Inductive RR : Type :=
| OPT (Option : list Z)
| OtherRR (Rrtype : Z).

(** The fields of [dns.Msg] that the embedded code reads or writes. *)
Record Msg : Type := mkMsg {
  Id : Z;
  Rcode : Z;
  Extra : list RR
}.

Definition set_Id (m : Msg) (id : Z) : Msg :=
  {| Id := id; Rcode := Rcode m; Extra := Extra m |}.

(** [dns.EDNS0TCPKEEPALIVE]. *)
Definition EDNS0TCPKEEPALIVE : Z := 11.

(** [dns.MaxMsgSize], the size of the buffers of [bytesPool]. *)
Definition MaxMsgSize : Z := 65535.

(** [dns.Msg.IsEdns0]: scans [Extra] from its end for an OPT record. *)
Fixpoint IsEdns0_rev (extra_rev : list RR) : option (list Z) :=
  match extra_rev with
  | [] => None
  | OPT o :: _ => Some o
  | OtherRR _ :: tl => IsEdns0_rev tl
  end.

Definition IsEdns0 (m : Msg) : option (list Z) := IsEdns0_rev (rev (Extra m)).

(* ================================================================== *)
(** ** The QUIC stream handler *)

Definition minDNSPacketSize : Z := 12 + 5.

(** The two QUIC servers of package [dnsserver]. *)
Inductive ServerKind : Type := QUIC | SQUIC.

(** What a handler does to its environment, in program order. *)
Inductive Event : Type :=
| SessionCloseWithError              (* session.CloseWithError(0, "") *)
| ChainServeDNS (query : Msg)        (* s.ServeDNS(ctx, dw, msg) *)
| StreamWrite (p : list byte)        (* stream.Write(p) *)
| StreamClose                        (* stream.Close() *)
| Print (line : string)              (* fmt.Print / Println / Printf *)
| PrintError (e : error).            (* fmt.Println(e.Error()) *)

(** How a Go function body ends. *)
Inductive Outcome : Type :=
| Returned
| Panicked (reason : string).

(** [stream.Read(b)]: [data] are the bytes this one call delivers; it
    copies as many as fit into [b] and reports their number. *)
Definition stream_Read (data b : list byte) : Z * list byte :=
  let n := Nat.min (List.length data) (List.length b) in
  (Z.of_nat n, firstn n data ++ skipn n b).

(** The result of lines 163-173 of [handleQUICStream]: the read, the
    minimum-size check and the prefix check. *)
Inductive FrameCheck : Type :=
| FrameIgnored                    (* n < minDNSPacketSize: plain return *)
| FrameMismatch                   (* prefix <> n - 2: panic *)
| FrameOk (n : Z) (b : list byte).  (* both checks passed *)

Definition readFrame (b data : list byte) : FrameCheck :=
  let '(n, b) := stream_Read data b in
  if n <? minDNSPacketSize then FrameIgnored
  else
    let msg_len := Uint16 (firstn 2 b) in
    if negb (msg_len =? n - 2) then FrameMismatch
    else FrameOk n b.

(** The walk over [opt.Option]: one [CloseWithError] per keepalive
    option; the loop has neither [break] nor [return]. *)
Definition keepaliveCheck (m : Msg) : list Event :=
  match IsEdns0 m with
  | Some opts =>
      flat_map (fun code =>
                  if code =? EDNS0TCPKEEPALIVE
                  then [SessionCloseWithError] else []) opts
  | None => []
  end.

(** How a goroutine ends: it runs to its end, or a panic reaches its top
    and, with no [recover] on the way, the Go runtime stops the whole
    program. *)
Inductive GoroutineEnd : Type :=
| Finished
| ProgramCrash (reason : string).

Section Handler.

(** [dns.Msg.Unpack] on a byte slice: the message, or the error. *)
Variable Unpack : list byte -> Msg + error.
(** [dns.Msg.Pack]; the handler drops its error ([buf] is then nil). *)
Variable Pack : Msg -> list byte.
(** The plugin chain: [dw.Msg] after [s.ServeDNS(ctx, dw, msg)], [None]
    when the chain wrote no message. *)
Variable ServeDNS : Msg -> option Msg.
(** [stream.Write(p)]: the count and the error it returns. *)
Variable stream_Write : list byte -> Z * option error.

(** The tail of the handler, from [stream.Write] on.  [ServerSQUIC]
    also prints a line for three error types of quic-go, which [error]
    does not tell apart; those lines are left out. *)
Definition writeResponse (k : ServerKind) (buf : list byte)
  : list Event * Outcome :=
  let p := addPrefix buf in
  let '(n, e) := stream_Write p in
  let wrote :=
    match k with
    | QUIC => [Print "encoded response(without fst 2 bytes): "; StreamWrite p]
    | SQUIC => [StreamWrite p; Print "wrote %d bytes to stream"]
    end in
  match e with
  | None => (wrote, Returned)
  | Some err =>
      let logged :=
        match k with
        | QUIC => [PrintError err]
        | SQUIC =>
            [PrintError err]
            ++ (if is_net_Error err
                then [Print "remote peer cancelled stream: %v"] else [])
        end in
      if negb (n =? len buf)
      then
        match k with
        | QUIC => (wrote ++ logged, Panicked "stream write failure!")
        | SQUIC =>
            (wrote ++ logged
               ++ [Print "stream write failure! buffer had size %d but only %d was sent"],
             Panicked "EXIT FAILURE")
        end
      else (wrote ++ logged, Returned)
  end.

(** [handleQUICStream] of [ServerQUIC] ([k = QUIC]) and of [ServerSQUIC]
    ([k = SQUIC]).  [b] is the buffer taken from [bytesPool], [data] the
    bytes the single [stream.Read] delivers.  The deferred
    [s.bytesPool.Put(b)] leaves no event. *)
Definition handleQUICStream (k : ServerKind) (b data : list byte)
  : list Event * Outcome :=
  match readFrame b data with
  | FrameIgnored => ([], Returned)
  | FrameMismatch => ([], Panicked "message size mismatch: %d vs %d")
  | FrameOk n b =>
      match Unpack (skipn 2 b) with
      | inr err =>
          ([Print "b[:n]";
            Print "handleQUICStream encountered invalid content: "],
           Returned)
      | inl msg =>
          let closing := keepaliveCheck msg in
          let served := closing ++ [ChainServeDNS msg] in
          match ServeDNS msg with
          | None =>
              (served ++ [Print "message was nil -> stream closed!";
                          StreamClose],
               Returned)
          | Some response =>
              let '(ev, out) := writeResponse k (Pack response) in
              (served ++ ev, out)
          end
      end
  end.

(** The goroutine started by [handleQUICSession] for each accepted
    stream: [s.handleQUICStream(stream, session); _ = stream.Close()]. *)
Definition streamWorker (k : ServerKind) (b data : list byte)
  : list Event * GoroutineEnd :=
  match handleQUICStream k b data with
  | (ev, Returned) => (ev ++ [StreamClose], Finished)
  | (ev, Panicked reason) => (ev, ProgramCrash reason)
  end.

End Handler.

(* ================================================================== *)
(** ** The forwarding proxy: [plugin/pkg/proxy/connect.go] *)

(** An [int64] (and so a [time.Duration], in nanoseconds) after an
    arithmetic operation: two's-complement wrap-around. *)
Definition wrap64 (z : Z) : Z := (z + 2 ^ 63) mod 2 ^ 64 - 2 ^ 63.

(** [limitTimeout]: [currentAvg] is the value loaded from the pointer.
    Go's [/] on integers truncates toward zero, which is [Z.quot]. *)
Definition limitTimeout (currentAvg minValue maxValue : Z) : Z :=
  let rt := currentAvg in
  if rt <? minValue then minValue
  else if rt <? Z.quot maxValue 2 then wrap64 (2 * rt)
  else maxValue.

(** [averageTimeout]: the new content of [*currentAvg]. *)
Definition averageTimeout (currentAvg observedDuration weight : Z) : Z :=
  let dt := currentAvg in
  wrap64 (currentAvg + Z.quot (wrap64 (observedDuration - dt)) weight).

Definition cumulativeAvgWeight : Z := 4.

(** The fields of [Transport] that [Dial] uses; [tlsConfig] records
    whether the pointer is non-nil. *)
Record Transport : Type := mkTransport {
  avgDialTime : Z;
  tlsConfig : bool;
  t_addr : string
}.

(** The fields of [Proxy] that [Connect] uses. *)
Record Proxy : Type := mkProxy {
  addr : string;
  transport : Transport;
  readTimeout : Z
}.

Record Options : Type := mkOptions {
  ForceTCP : bool;
  PreferUDP : bool
}.

(** [request.Request]: the request message [Req] (a pointer shared with
    the caller) and the values of the methods [Proto()] and [Size()]. *)
Record Request : Type := mkRequest {
  Req : Msg;
  Proto : string;
  Size : Z
}.

(** The result of [url.Parse] when its error is nil. *)
Record URL : Type := mkURL {
  Scheme : string;
  Host : string;
  Path : string
}.

(** One result of [pc.c.ReadMsg()]: a message and a nil error, or an
    error together with the message read so far, if any. *)
Inductive ReadResult : Type :=
| ReadOk (m : Msg)
| ReadErr (m : option Msg) (e : error).

(** What the world outside the proxy answers during one [Connect]. *)
Record Upstream : Type := mkUpstream {
  (** the coordinator's answer on [t.ret]: is there a cached connection *)
  pooled : string -> bool;
  (** [dns.DialTimeout(proto, addr, timeout)]: its error and the time the
      call took *)
  dialResult : string -> Z -> option error * Z;
  (** [dns.Id()] *)
  freshId : Z;
  (** the error of [pc.c.WriteMsg(state.Req)] *)
  writeResult : option error;
  (** the successive results of [pc.c.ReadMsg()] *)
  reads : list ReadResult
}.

(** What [Connect] does to the connection and the pool, in program
    order.  Metric counters are left out. *)
Inductive ProxyEvent : Type :=
| DialFresh (proto : string) (timeout : Z)
| SetUDPSize (size : Z)
| SetWriteDeadline
| WriteMsg (m : Msg)
| SetReadDeadline
| ReadMsg
| ConnClose
| Yield
| Printf (line : string).

(** What [Connect] hands back: the two results, the caller's request
    message as it is left, the transport, and the trace. *)
Record Connected : Type := mkConnected {
  ret : option Msg;
  err : option error;
  Req_after : Msg;
  transport_after : Transport;
  trace : list ProxyEvent
}.

Section Proxy.

(** Constants of the package declared outside [connect.go]. *)
Variables minDialTimeout maxDialTimeout : Z.
(** [pan.ParseUDPAddr(s)] returns a nil error. *)
Variable ParseUDPAddr_ok : string -> bool.
(** [url.Parse(s)]: the URL when the error is nil. *)
Variable url_Parse : string -> option URL.
(** The method [p.Addr()], declared outside [connect.go]. *)
Variable Proxy_Addr : Proxy -> string.

Definition dialTimeout (t : Transport) : Z :=
  limitTimeout (avgDialTime t) minDialTimeout maxDialTimeout.

Definition updateDialTimeout (t : Transport) (newDialTime : Z) : Transport :=
  {| avgDialTime := averageTimeout (avgDialTime t) newDialTime cumulativeAvgWeight;
     tlsConfig := tlsConfig t;
     t_addr := t_addr t |}.

(** [Transport.Dial]: the transport afterwards, [cached], the error and
    the trace. *)
Definition Dial (t : Transport) (u : Upstream) (proto : string)
  : Transport * bool * option error * list ProxyEvent :=
  let proto := if tlsConfig t then "tcp-tls" else proto in
  if pooled u proto then (t, true, None, [])
  else
    let timeout := dialTimeout t in
    let '(e, elapsed) := dialResult u proto timeout in
    (updateDialTimeout t elapsed, false, e, [DialFresh proto timeout]).

(** Lines 82-110 of [Connect]: the protocol handed to [Dial]. *)
Definition selectProto (p : Proxy) (state : Request) (opts : Options)
  : string * list ProxyEvent :=
  let proto :=
    if ForceTCP opts then "tcp"
    else if PreferUDP opts then "udp"
    else Proto state in
  if ParseUDPAddr_ok (Proxy_Addr p)
  then (proto, [Printf "forwarded to SCION proxy: %v "])
  else
    match url_Parse (addr p) with
    | Some proxy_proto => (Scheme proxy_proto, [])
    | None => ("udp", [])
    end.

(** The [for] loop of [Connect] over the results of [ReadMsg]; [sent] is
    [state.Req.Id] during the loop.  [None]: the results run out while
    the loop is still waiting. *)
Fixpoint readLoop (proto : string) (cached : bool) (sent originId : Z)
         (rs : list ReadResult) (acc : list ProxyEvent)
  : option (option Msg * option error * list ProxyEvent) :=
  match rs with
  | [] => None
  | ReadErr m e :: rest =>
      if (proto =? "udp")%string && negb (is_net_Error e)
      then readLoop proto cached sent originId rest (acc ++ [ReadMsg])
      else
        let acc := acc ++ [ReadMsg; ConnClose] in
        if is_EOF e && cached
        then Some (None, Some ErrCachedClosed, acc)
        else Some (option_map (fun r => set_Id r originId) m, Some e, acc)
  | ReadOk m :: rest =>
      if sent =? Id m
      then Some (Some (set_Id m originId), None, acc ++ [ReadMsg; Yield])
      else readLoop proto cached sent originId rest (acc ++ [ReadMsg])
  end.

(** [Proxy.Connect].  The deferred function restores [state.Req.Id] on
    every return that follows its registration. *)
Definition Connect (p : Proxy) (u : Upstream) (state : Request)
           (opts : Options) : option Connected :=
  let '(proto, ev0) := selectProto p state opts in
  let '(t, cached, e, ev1) := Dial (transport p) u proto in
  match e with
  | Some e =>
      Some {| ret := None; err := Some e; Req_after := Req state;
              transport_after := t; trace := ev0 ++ ev1 |}
  | None =>
      let size := uint16 (Size state) in
      let size := if size <? 512 then 512 else size in
      let originId := Id (Req state) in
      let req := set_Id (Req state) (freshId u) in
      let restore (r : Msg) := set_Id r originId in
      let ev2 := ev0 ++ ev1 ++ [SetUDPSize size; SetWriteDeadline; WriteMsg req] in
      match writeResult u with
      | Some e =>
          Some {| ret := None;
                  err := Some (if is_EOF e && cached then ErrCachedClosed else e);
                  Req_after := restore req;
                  transport_after := t;
                  trace := ev2 ++ [ConnClose] |}
      | None =>
          match readLoop proto cached (Id req) originId (reads u)
                         (ev2 ++ [SetReadDeadline]) with
          | None => None
          | Some (r, e, ev) =>
              Some {| ret := r; err := e; Req_after := restore req;
                      transport_after := t; trace := ev |}
          end
      end
  end.

End Proxy.

(* ================================================================== *)
(** * Sample inputs

    A DNS query for the root name that carries an OPT record with the
    edns-tcp-keepalive option, the message it decodes to, and stand-ins
    for the library calls on these inputs. *)

Definition keepaliveQueryBytes : list byte :=
  [ x12; x34; x01; x00; x00; x01; x00; x00; x00; x00; x00; x01;   (* header *)
    x00; x00; x01; x00; x01;                                      (* . IN A *)
    x00; x00; x29; x10; x00; x00; x00; x00; x00; x00; x04;        (* OPT *)
    x00; x0b; x00; x00 ].                                         (* keepalive *)

Definition keepaliveQuery : Msg :=
  {| Id := 4660; Rcode := 0; Extra := [OPT [EDNS0TCPKEEPALIVE]] |}.

(** The same query without the OPT record. *)
Definition plainQueryBytes : list byte :=
  [ x12; x34; x01; x00; x00; x01; x00; x00; x00; x00; x00; x00;
    x00; x00; x01; x00; x01 ].

Definition plainQuery : Msg := {| Id := 4660; Rcode := 0; Extra := [] |}.

Fixpoint bytes_eqb (a c : list byte) : bool :=
  match a, c with
  | [], [] => true
  | x :: a', y :: c' => Byte.eqb x y && bytes_eqb a' c'
  | _, _ => false
  end.

(** Decodes the two sample queries, whatever follows them in the buffer,
    and rejects every other input. *)
Definition sampleUnpack (bs : list byte) : Msg + error :=
  if bytes_eqb (firstn 32 bs) keepaliveQueryBytes
  then inl keepaliveQuery
  else if bytes_eqb (firstn 17 bs) plainQueryBytes
       then inl plainQuery
       else inr (other_error "dns: overflow unpacking").

(** A chain that answers every query with an empty NOERROR response. *)
Definition sampleServeDNS (q : Msg) : option Msg :=
  Some {| Id := Id q; Rcode := 0; Extra := [] |}.

(** The twelve header bytes of such a response. *)
Definition samplePack (m : Msg) : list byte :=
  byte_of_Z (Z.shiftr (Id m) 8) :: byte_of_Z (Id m) :: x81 :: x80
    :: repeat x00 8.

(** A stream that takes every byte. *)
Definition sampleWrite (p : list byte) : Z * option error := (len p, None).

(** A stream whose session is gone: nothing is written. *)
Definition failingWrite (p : list byte) : Z * option error :=
  (0, Some (net_Error false "Application error 0x0")).

(** A frame that declares 32 bytes and carries 15. *)
Definition truncatedFrame : list byte := x00 :: x20 :: repeat x00 15.

(** ** Sample inputs of the proxy *)

(** The running average fed with a list of observed dial times. *)
Definition observeAll (t : Transport) (observed : list Z) : Transport :=
  fold_left updateDialTimeout observed t.

(** One and thirty seconds, in nanoseconds. *)
Definition sampleMinDialTimeout : Z := 1000000000.
Definition sampleMaxDialTimeout : Z := 30000000000.

(** No sample address is a SCION address. *)
Definition sampleParseUDPAddr_ok (s : string) : bool := false.

(** [url.Parse] on the sample addresses: a bare IP address parses, as a
    relative reference with an empty scheme; an address with a scheme
    parses; [host:port] without a scheme is an error ("first path segment
    in URL cannot contain colon"). *)
Definition sampleUrlParse (s : string) : option URL :=
  if (s =? "8.8.8.8")%string
  then Some {| Scheme := ""; Host := ""; Path := "8.8.8.8" |}
  else if (s =? "tcp://8.8.8.8:53")%string
       then Some {| Scheme := "tcp"; Host := "8.8.8.8:53"; Path := "" |}
       else None.

Definition sampleProxy (a : string) : Proxy :=
  {| addr := a;
     transport := {| avgDialTime := 15000000000; tlsConfig := false;
                     t_addr := a |};
     readTimeout := 2000000000 |}.

(** A client query with ID 7, received over UDP. *)
Definition clientRequest : Request :=
  {| Req := {| Id := 7; Rcode := 0; Extra := [] |};
     Proto := "udp"; Size := 1232 |}.

Definition noOptions : Options := {| ForceTCP := false; PreferUDP := false |}.

Definition reply (id : Z) : Msg := {| Id := id; Rcode := 0; Extra := [] |}.

(** An upstream reached over a cached connection or a fresh one, with the
    given write result and read results.  A dial takes 20 ms on the
    networks "udp", "tcp" and "tcp-tls" and fails at once on any other
    network name; the proxy draws the ID 4242. *)
Definition sampleUpstream (cached : bool) (w : option error)
           (rs : list ReadResult) : Upstream :=
  {| pooled := fun _ => cached;
     dialResult := fun proto _ =>
       if ((proto =? "udp") || (proto =? "tcp") || (proto =? "tcp-tls"))%string
       then (None, 20000000)
       else (Some (other_error "dial: unknown network"), 0);
     freshId := 4242;
     writeResult := w;
     reads := rs |}.

(** [Connect] with the sample parsers and constants. *)
Definition sampleConnect (a : string) (u : Upstream) : option Connected :=
  Connect sampleMinDialTimeout sampleMaxDialTimeout
          sampleParseUDPAddr_ok sampleUrlParse addr
          (sampleProxy a) u clientRequest noOptions.

(* ================================================================== *)
(** ** Secondary zones: [plugin/file/secondary.go] *)

(** Go's conversion [uint32(v)] and the wrap-around of [uint32]
    arithmetic. *)
Definition uint32 (z : Z) : Z := z mod 2 ^ 32.

Definition MaxSerialIncrement : Z := 2147483647.

(** [less] on two [uint32] serials. *)
Definition less (a b : Z) : bool :=
  if a <? b
  then uint32 (b - a) <=? MaxSerialIncrement
  else MaxSerialIncrement <? uint32 (a - b).

(** An answer record, as far as [shouldTransfer] looks at it. *)
Inductive AnswerRR : Type :=
| SOA (Serial : Z)
| OtherAnswer (Rrtype : Z).

(** The result of [c.Exchange(m, tr)]: an error, or a response with its
    [Rcode] and [Answer] section. *)
Inductive Exchanged : Type :=
| ExchangeErr (e : error)
| ExchangeOk (rcode : Z) (Answer : list AnswerRR).

Definition RcodeSuccess : Z := 0.

(** The fields of [Zone] that [shouldTransfer] uses: the primaries and the
    serial of [z.Apex.SOA], [None] when that pointer is nil. *)
Record Zone : Type := mkZone {
  TransferFrom : list string;
  ApexSOASerial : option Z
}.

(** The inner loop over [ret.Answer]: the serial of the first SOA record,
    a [uint32].  [int] is taken to be 64 bits wide, so that
    [int(Serial)] is never the -1 that stands for no serial. *)
Fixpoint firstSOA (answer : list AnswerRR) : option Z :=
  match answer with
  | [] => None
  | SOA serial :: _ => Some (uint32 serial)
  | OtherAnswer _ :: rest => firstSOA rest
  end.

Section ShouldTransfer.

(** [dnsutil.IsSCIONAddress], which rests on [pan.ParseUDPAddr]. *)
Variable IsSCIONAddress : string -> bool.
(** [c.Exchange(m, tr)] for a client with [Net] "squic" or "tcp". *)
Variable Exchange : string -> string -> Exchanged.

(** The loop labelled [Transfer]: [serial] and [Err] when it ends;
    [serial] is -1 as long as no SOA record was seen. *)
Fixpoint transferLoop (from : list string) (Err : option error)
  : Z * option error :=
  match from with
  | [] => (-1, Err)
  | tr :: rest =>
      let net := if IsSCIONAddress tr then "squic" else "tcp" in
      match Exchange net tr with
      | ExchangeErr e => transferLoop rest (Some e)
      | ExchangeOk rcode answer =>
          if negb (rcode =? RcodeSuccess)
          then transferLoop rest None
          else match firstSOA answer with
               | Some serial => (serial, None)
               | None => transferLoop rest None
               end
      end
  end.

(** [Zone.shouldTransfer]. *)
Definition shouldTransfer (z : Zone) : bool * option error :=
  let '(serial, Err) := transferLoop (TransferFrom z) None in
  if serial =? -1 then (false, Err)
  else
    match ApexSOASerial z with
    | None => (true, Err)
    | Some local => (less local (uint32 serial), Err)
    end.

End ShouldTransfer.

(* ================================================================== *)
(** ** Capturing writers: [plugin/pkg/nonwriter] and the scrub writers of
       package [request] *)

(** [nonwriter.Writer]: the messages written and the one kept in [Msg];
    a nil [Msg] is [None]. *)
Record Writer : Type := mkWriter {
  Msgs : list Msg;
  Writer_Msg : option Msg
}.

(** [nonwriter.New]. *)
Definition New : Writer := {| Msgs := []; Writer_Msg := None |}.

(** [Writer.WriteMsg]: [w.Msgs = append(w.Msgs, res); w.Msg = w.Msgs[0]];
    the error returned is always nil. *)
Definition Writer_WriteMsg (w : Writer) (res : Msg) : Writer * option error :=
  let msgs := Msgs w ++ [res] in
  ({| Msgs := msgs; Writer_Msg := nth_error msgs 0 |}, None).

(** The methods of [dns.ResponseWriter] that the scrub writers call. *)
Class ResponseWriter (W : Type) : Type := {
  rw_WriteMsg : W -> Msg -> W * option error;
  rw_SupportsMultiMsg : W -> bool
}.

#[export] Instance nonwriter_ResponseWriter : ResponseWriter Writer := {
  rw_WriteMsg := Writer_WriteMsg;
  rw_SupportsMultiMsg := fun _ => true
}.

Section ScrubWriters.

Context {W : Type} `{ResponseWriter W}.

(** [state.SizeAndDo(m)], [state.Scrub(m)] and [state.ScrubNoDiscard(m)]
    of [request.Request], for the request [req]: the message as they
    leave it, and the replies. *)
Variable SizeAndDo : Msg -> Msg -> Msg.
Variable Scrub : Msg -> Msg -> Msg.
Variable ScrubNoDiscard : Msg -> Msg -> list Msg.

(** [ScrubWriter.WriteMsg]. *)
Definition ScrubWriter_WriteMsg (w : W) (req m : Msg) : W * option error :=
  let m := SizeAndDo req m in
  let m := Scrub req m in
  rw_WriteMsg w m.

(** The [for] loop over [replies]: it returns at the first error. *)
Fixpoint writeReplies (w : W) (replies : list Msg) : W * option error :=
  match replies with
  | [] => (w, None)
  | r :: rest =>
      match rw_WriteMsg w r with
      | (w', Some e) => (w', Some e)
      | (w', None) => writeReplies w' rest
      end
  end.

(** [NoDiscardScrubWriter.WriteMsg]. *)
Definition NoDiscardScrubWriter_WriteMsg (w : W) (req m : Msg)
  : W * option error :=
  if negb (rw_SupportsMultiMsg w)
  then (w, Some (other_error
                   "NoDiscardScrubWriter accepts only ResponseWriters, on which WriteMsg() can be called multiple times"))
  else
    let m := SizeAndDo req m in
    let replies := ScrubNoDiscard req m in
    writeReplies w replies.

End ScrubWriters.


(* ================================================================== *)
(** ** Reverse names: [plugin/pkg/dnsutil/reverse.go]

    Go strings are [string]s of bytes.  The functions of package
    [strings] are written out for a separator and a pattern that are not
    empty, the only way the file calls them. *)

(** What a call that can panic comes to. *)
Inductive GoResult (A : Type) : Type :=
| Return (a : A)
| RuntimePanic (reason : string).
Arguments Return {A} a.
Arguments RuntimePanic {A} reason.

Definition byteval (c : ascii) : Z := Z.of_N (N_of_ascii c).

(** [s[n:]] and [s[:n]]. *)
Fixpoint strFrom (n : nat) (s : string) : string :=
  match n, s with
  | O, _ => s
  | S n', String _ s' => strFrom n' s'
  | S _, EmptyString => EmptyString
  end.

Definition strTo (n : nat) (s : string) : string := substring 0 n s.

(** [strings.HasSuffix] and [strings.TrimSuffix]. *)
Definition HasSuffix (s suffix : string) : bool :=
  (String.length suffix <=? String.length s)%nat
  && (strFrom (String.length s - String.length suffix) s =? suffix)%string.

Definition TrimSuffix (s suffix : string) : string :=
  if HasSuffix s suffix
  then strTo (String.length s - String.length suffix) s
  else s.

(** [strings.Contains]. *)
Fixpoint Contains (s substr : string) : bool :=
  prefix substr s
  || match s with
     | EmptyString => false
     | String _ s' => Contains s' substr
     end.

(** [strings.Split(s, sep)]: the pieces between the occurrences of [sep],
    found from the left and not overlapping.  [skipping] counts the bytes
    of an occurrence that are still to be passed over. *)
Fixpoint SplitFrom (sep : string) (skipping : nat) (s : string)
  : list string :=
  match s with
  | EmptyString => [EmptyString]
  | String c s' =>
      match skipping with
      | S k => SplitFrom sep k s'
      | O =>
          if prefix sep s
          then EmptyString :: SplitFrom sep (String.length sep - 1) s'
          else match SplitFrom sep 0 s' with
               | piece :: pieces => String c piece :: pieces
               | [] => [String c EmptyString]
               end
      end
  end.

Definition Split (s sep : string) : list string := SplitFrom sep 0 s.

(** [strings.Join]. *)
Definition Join (elems : list string) (sep : string) : string :=
  String.concat sep elems.

(** [strings.Count]. *)
Fixpoint CountFrom (substr : string) (skipping : nat) (s : string) : Z :=
  match s with
  | EmptyString => 0
  | String c s' =>
      match skipping with
      | S k => CountFrom substr k s'
      | O =>
          if prefix substr s
          then 1 + CountFrom substr (String.length substr - 1) s'
          else CountFrom substr 0 s'
      end
  end.

Definition Count (s substr : string) : Z := CountFrom substr 0 s.

(** [strings.Replace(s, old, new, n)]: the first [n] occurrences of [old]
    replaced by [new], all of them when [n < 0]. *)
Fixpoint ReplaceFrom (old new : string) (skipping : nat) (n : Z)
         (s : string) : string :=
  match s with
  | EmptyString => EmptyString
  | String c s' =>
      match skipping with
      | S k => ReplaceFrom old new k n s'
      | O =>
          if negb (n =? 0) && prefix old s
          then String.append new
                 (ReplaceFrom old new (String.length old - 1)
                              (if n <? 0 then n else n - 1) s')
          else String c (ReplaceFrom old new 0 n s')
      end
  end.

Definition Replace (s old new : string) (n : Z) : string :=
  ReplaceFrom old new 0 n s.

Definition InAddr4 : string := ".in-addr.".
Definition InAddr6 : string := ".ip6.".
Definition IP4arpa : string := ".in-addr.arpa.".
Definition IP6arpa : string := ".ip6.arpa.".
Definition SCIONarpa : string := ".scion.arpa.".

(** [IsReverse]. *)
Definition IsReverse (name : string) : Z :=
  if HasSuffix name IP4arpa then 1
  else if HasSuffix name IP6arpa then 2
  else if HasSuffix name SCIONarpa then 3
  else 0.

Definition big : Z := 16777215.

(** [dtoi]: number, characters consumed, success. *)
Fixpoint dtoi_loop (s : string) (n i : Z) : Z * Z * bool :=
  match s with
  | String c s' =>
      if (48 <=? byteval c) && (byteval c <=? 57)
      then
        let n := n * 10 + (byteval c - 48) in
        if big <=? n then (big, i, false) else dtoi_loop s' n (i + 1)
      else if i =? 0 then (0, 0, false) else (n, i, true)
  | EmptyString => if i =? 0 then (0, 0, false) else (n, i, true)
  end.

Definition dtoi (s : string) : Z * Z * bool := dtoi_loop s 0 0.

(** [xtoi]: number, characters consumed, success. *)
Fixpoint xtoi_loop (s : string) (n i : Z) : Z * Z * bool :=
  let finish := if i =? 0 then (0, i, false) else (n, i, true) in
  match s with
  | String c s' =>
      let digit :=
        if (48 <=? byteval c) && (byteval c <=? 57)
        then Some (byteval c - 48)
        else if (97 <=? byteval c) && (byteval c <=? 102)
        then Some (byteval c - 97 + 10)
        else if (65 <=? byteval c) && (byteval c <=? 70)
        then Some (byteval c - 65 + 10)
        else None in
      match digit with
      | Some d =>
          let n := n * 16 + d in
          if big <=? n then (0, i, false) else xtoi_loop s' n (i + 1)
      | None => finish
      end
  | EmptyString => finish
  end.

Definition xtoi (s : string) : Z * Z * bool := xtoi_loop s 0 0.

(** [net.IPv4(a, b, c, d)]: the 16-byte form of an IPv4 address. *)
Definition IPv4 (a b c d : byte) : list byte :=
  repeat x00 10 ++ [xff; xff; a; b; c; d].

(** The assignment [p[i] = v] on an array or slice with [i] in range. *)
Fixpoint setIndex {A : Type} (l : list A) (i : nat) (v : A) : list A :=
  match l, i with
  | [], _ => []
  | _ :: tl, O => v :: tl
  | hd :: tl, S i' => hd :: setIndex tl i' v
  end.

(** The loop of [ParseIPv4] with [todo] iterations left. *)
Fixpoint ParseIPv4_loop (todo : nat) (i : nat) (s : string) (p : list byte)
  : option (list byte) :=
  match todo with
  | O =>
      match s, p with
      | EmptyString, [a; b; c; d] => Some (IPv4 a b c d)
      | _, _ => None
      end
  | S todo' =>
      match s with
      | EmptyString => None
      | String c0 rest =>
          let dotted :=
            if (0 <? i)%nat
            then if (c0 =? ".")%char then Some rest else None
            else Some s in
          match dotted with
          | None => None
          | Some s =>
              let '(n, c, ok) := dtoi s in
              if negb ok || (255 <? n) then None
              else if (1 <? c) && prefix "0" s then None
              else ParseIPv4_loop todo' (S i) (strFrom (Z.to_nat c) s)
                                  (setIndex p i (byte_of_Z n))
          end
      end
  end.

(** [ParseIPv4]: the address in its 16-byte form, or [None] for nil. *)
Definition ParseIPv4 (s : string) : option (list byte) :=
  ParseIPv4_loop 4 0 s [x00; x00; x00; x00].

(** The loops of [InvertIPv4] and [InvertIPv6]: from [octets[i]] down to
    [octets[0]], with [sep] between them.  [None]: an index out of
    range. *)
Fixpoint invertLoop (sep : string) (octets : list string) (i : nat)
         (inverted : string) : option string :=
  match nth_error octets i with
  | None => None
  | Some octet =>
      let inverted := (inverted ++ octet)%string in
      match i with
      | O => Some inverted
      | S i' => invertLoop sep octets i' (inverted ++ sep)%string
      end
  end.

(** [InvertIPv4]. *)
Definition InvertIPv4 (ip : string) : GoResult (string * option error) :=
  let octets := Split ip "." in
  if negb (len octets =? 4)
  then Return (EmptyString, Some (other_error (ip ++ " is not an IPV4")%string))
  else match invertLoop "." octets 3 EmptyString with
       | Some inverted => Return (inverted, None)
       | None => RuntimePanic "index out of range"
       end.

(** [InvertIPv6]. *)
Definition InvertIPv6 (ip : string) : GoResult (string * option error) :=
  let octets := Split ip ":" in
  if negb (len octets =? 15)
  then Return (EmptyString, Some (other_error (ip ++ " is not an IPV6")%string))
  else match invertLoop ":" octets 15 EmptyString with
       | Some inverted => Return (inverted, None)
       | None => RuntimePanic "index out of range"
       end.

(** [invertISAS] and [uninvertISAS]. *)
Definition invertISAS (s : string) : string := Replace s ":" "-" (-1).

Definition uninvertISAS (invISAS : string) : string * option error :=
  if negb (Count invISAS "-" =? 3)
  then (invISAS, Some (other_error "invalid string for reverse IS-AS"))
  else (Replace (Replace invISAS "-" ":" (-1)) ":" "-" 1, None).

(** [slice[i], slice[j] = slice[j], slice[i]]. *)
Definition swapIndex (slice : list string) (i j : nat) : list string :=
  let a := nth i slice EmptyString in
  let b := nth j slice EmptyString in
  setIndex (setIndex slice i b) j a.

(** The first loop of [reverse] and [reverse6]: the slice after it. *)
Definition reverseInPlace (slice : list string) : list string :=
  fold_left (fun sl i => swapIndex sl i (List.length sl - i - 1))
            (seq 0 (List.length slice / 2)) slice.

(** The second loop of [reverse6]: [slice[i*4:i*4+4]] joined, for [i]
    below [len(slice)/4]. *)
Definition groupsOfFour (slice : list string) : list string :=
  map (fun i => Join (firstn 4 (skipn (i * 4) slice)) "")
      (seq 0 (List.length slice / 4)).

Section Reverse.

(** [net.ParseIP(s).To4()] and [net.ParseIP(s).To16()], rendered with
    [String()]; [None] when the result is nil. *)
Variable ParseIP_To4 : string -> option string.
Variable ParseIP_To16 : string -> option string.

(** [reverse]; the caller's slice is left as [reverseInPlace] makes it. *)
Definition reverse (slice : list string) : string :=
  match ParseIP_To4 (Join (reverseInPlace slice) ".") with
  | None => EmptyString
  | Some ip => ip
  end.

(** [reverse6]. *)
Definition reverse6 (slice : list string) : string :=
  let slice := reverseInPlace slice in
  let slice6 := groupsOfFour slice in
  match ParseIP_To16 (Join slice6 ":") with
  | None => EmptyString
  | Some ip => ip
  end.

(** [UnReverseSCION]. *)
Definition UnReverseSCION (revAddr : string) : string :=
  if negb (HasSuffix revAddr SCIONarpa) then revAddr
  else
    let addr := TrimSuffix revAddr SCIONarpa in
    if Contains addr InAddr4 then
      match Split addr InAddr4 with
      | [host; isas] =>
          let hostpart4 := reverse (Split host ".") in
          match uninvertISAS isas with
          | (isasPart, None) => (isasPart ++ "," ++ hostpart4)%string
          | (_, Some _) => revAddr
          end
      | _ => revAddr
      end
    else if Contains addr InAddr6 then
      match Split addr InAddr6 with
      | [host; isas] =>
          let hostpart6 := reverse6 (Split host ".") in
          match uninvertISAS isas with
          | (isasPart, None) => (isasPart ++ "," ++ hostpart6)%string
          | (_, Some _) => revAddr
          end
      | _ => revAddr
      end
    else revAddr.

(** [ExtractAddressFromReverse]. *)
Definition ExtractAddressFromReverse (reverseName : string) : string :=
  if HasSuffix reverseName IP4arpa
  then reverse (Split (TrimSuffix reverseName IP4arpa) ".")
  else if HasSuffix reverseName IP6arpa
  then reverse6 (Split (TrimSuffix reverseName IP6arpa) ".")
  else if HasSuffix reverseName SCIONarpa
  then UnReverseSCION reverseName
  else EmptyString.

End Reverse.


(** Two predicates on strings used to state properties: [s] holds no
    byte [c]; [s] holds decimal digits only. *)
Fixpoint lacks (c : ascii) (s : string) : bool :=
  match s with
  | EmptyString => true
  | String x s' => negb (x =? c)%char && lacks c s'
  end.

Fixpoint allDigits (s : string) : bool :=
  match s with
  | EmptyString => true
  | String x s' => (48 <=? byteval x) && (byteval x <=? 57) && allDigits s'
  end.


(* ================================================================== *)
(** ** The QUIC listener: [ServePacket] and [Stop]

    The two servers have the same code but for the call that opens the
    listener ([quic.Listen] or [pan.ListenQUIC2]). *)

(** The state of a server that these methods touch: the mutex [s.m],
    whether [s.tlsConfig] is non-nil, and whether [s.listen] is set. *)
Record ServerState : Type := mkServerState {
  m_locked : bool;
  has_tlsConfig : bool;
  listening : bool
}.

(** How a call ends: it returns, it waits without end (for a mutex
    nobody releases, or for a next session), or it panics. *)
Inductive CallEnd (A : Type) : Type :=
| Done (a : A)
| Waits
| Panics (reason : string).
Arguments Done {A} a.
Arguments Waits {A}.
Arguments Panics {A} reason.

Inductive ListenerEvent : Type :=
| QuicListen                      (* quic.Listen / pan.ListenQUIC2 *)
| GoSession (session : Z)         (* go s.handleQUICSession(session) *)
| ListenClose.                    (* s.listen.Close() *)

(** The loop over [s.listen.Accept]: a goroutine per session, until
    [Accept] returns an error. *)
Fixpoint acceptLoop (accepts : list (Z + error))
  : CallEnd (option error) * list ListenerEvent :=
  match accepts with
  | [] => (Waits, [])
  | inl session :: rest =>
      let '(e, ev) := acceptLoop rest in (e, GoSession session :: ev)
  | inr e :: _ => (Done (Some e), [])
  end.

(** [ServePacket]: [listenResult] is the error of the call that opens
    the listener, [accepts] the results of the calls of [Accept]. *)
Definition ServePacket (st : ServerState) (listenResult : option error)
           (accepts : list (Z + error))
  : CallEnd (option error) * ServerState * list ListenerEvent :=
  if m_locked st then (Waits, st, [])
  else
    let locked := {| m_locked := true; has_tlsConfig := has_tlsConfig st;
                     listening := listening st |} in
    if negb (has_tlsConfig st)
    then (Done (Some (other_error
                        "cannot run a QUIC server without TLS config")),
          locked, [])
    else
      match listenResult with
      | Some e => (Done (Some e), locked, [QuicListen])
      | None =>
          let serving := {| m_locked := false;
                            has_tlsConfig := has_tlsConfig st;
                            listening := true |} in
          let '(e, ev) := acceptLoop accepts in
          (e, serving, QuicListen :: ev)
      end.

(** [Stop]: [closeResult] is the error of [s.listen.Close()].  The
    deferred [Unlock] also runs when the call on a nil [s.listen]
    panics. *)
Definition Stop (st : ServerState) (closeResult : option error)
  : CallEnd (option error) * ServerState * list ListenerEvent :=
  if m_locked st then (Waits, st, [])
  else if listening st
       then (Done closeResult, st, [ListenClose])
       else (Panics "invalid memory address or nil pointer dereference",
             st, []).


(* ================================================================== *)
(** ** Sample primaries, writers and reverse names *)

(** Three primaries: the first does not answer, the second answers
    NOERROR with an NS and an SOA record, the third answers REFUSED. *)
Definition sampleIsSCIONAddress (tr : string) : bool :=
  (tr =? "19-ffaa:1:1067,[127.0.0.1]:8853")%string.

Definition sampleExchange (net tr : string) : Exchanged :=
  if (tr =? "10.0.0.1:53")%string
  then ExchangeErr (net_Error true "i/o timeout")
  else if (tr =? "19-ffaa:1:1067,[127.0.0.1]:8853")%string
  then if (net =? "squic")%string
       then ExchangeOk RcodeSuccess [OtherAnswer 2; SOA 2021103101]
       else ExchangeErr (other_error "unknown network")
  else ExchangeOk 5 [].

Definition staleZone : Zone :=
  {| TransferFrom := ["10.0.0.1:53"; "19-ffaa:1:1067,[127.0.0.1]:8853";
                      "10.0.0.3:53"];
     ApexSOASerial := Some 2021103100 |}.

Definition unreachableZone : Zone :=
  {| TransferFrom := ["10.0.0.3:53"; "10.0.0.1:53"];
     ApexSOASerial := Some 2021103100 |}.

(** A writer that takes [room] more messages and fails after that; it
    supports several messages. *)
Record BoundedWriter : Type := mkBoundedWriter {
  sent : list Msg;
  room : nat
}.

#[export] Instance bounded_ResponseWriter : ResponseWriter BoundedWriter := {
  rw_WriteMsg := fun w m =>
    match room w with
    | O => (w, Some (net_Error false "write: broken pipe"))
    | S n => ({| sent := sent w ++ [m]; room := n |}, None)
    end;
  rw_SupportsMultiMsg := fun _ => true
}.

(** [SizeAndDo] that leaves the message as it is, and [ScrubNoDiscard]
    that splits a reply in three. *)
Definition sampleSizeAndDo (req m : Msg) : Msg := m.

Definition sampleScrubNoDiscard (req m : Msg) : list Msg :=
  [m; {| Id := Id m; Rcode := Rcode m; Extra := [] |};
   {| Id := Id m; Rcode := Rcode m; Extra := [] |}].

(** [net.ParseIP] on the two addresses of the samples. *)
Definition sampleParseIP_To4 (s : string) : option string :=
  if (s =? "127.0.0.1")%string then Some "127.0.0.1" else None.

Definition sampleParseIP_To16 (s : string) : option string :=
  if (s =? "2001:0db8:0000:0000:0000:0000:0000:0001")%string
  then Some "2001:db8::1"
  else if (s =? "127.0.0.1")%string then Some "127.0.0.1" else None.


(* ================================================================== *)
(** * Properties of the framing *)

Lemma Z_of_byte_of_Z (z : Z) : Z_of_byte (byte_of_Z z) = z mod 256.
Proof.
  unfold Z_of_byte, byte_of_Z.
  assert (B : 0 <= z mod 256 < 256) by (apply Z.mod_pos_bound; lia).
  destruct (Byte.of_N (Z.to_N (z mod 256))) as [c|] eqn:E.
  - apply Byte.to_of_N in E. rewrite E. apply Z2N.id. lia.
  - apply Byte.of_N_None_iff in E. lia.
Qed.

Lemma len_nonneg {A : Type} (l : list A) : 0 <= len l.
Proof. unfold len. lia. Qed.

(** Reading back the two bytes written by [PutUint16] gives the low
    sixteen bits of the value. *)
Lemma Uint16_bytes (v : Z) (rest : list byte) :
  Uint16 (byte_of_Z (Z.shiftr v 8) :: byte_of_Z v :: rest) = v mod 2 ^ 16.
Proof.
  unfold Uint16. rewrite !Z_of_byte_of_Z.
  change 256 with (2 ^ 8).
  apply Z.bits_inj'. intros n Hn.
  rewrite Z.lor_spec.
  destruct (Z.ltb_spec n 8) as [L8|G8].
  - rewrite Z.mod_pow2_bits_low by lia.
    rewrite Z.shiftl_spec_low by lia.
    rewrite Z.mod_pow2_bits_low by lia.
    now rewrite orb_false_r.
  - rewrite (Z.mod_pow2_bits_high v 8 n) by lia.
    rewrite Z.shiftl_spec by lia. cbn [orb].
    destruct (Z.ltb_spec n 16) as [L16|G16].
    + rewrite Z.mod_pow2_bits_low by lia.
      rewrite Z.shiftr_spec by lia.
      rewrite Z.mod_pow2_bits_low by lia.
      f_equal. lia.
    + rewrite Z.mod_pow2_bits_high by lia.
      now rewrite Z.mod_pow2_bits_high by lia.
Qed.

Lemma Uint16_PutUint16 (a c : byte) (rest : list byte) (v : Z) :
  Uint16 (PutUint16 (a :: c :: rest) v) = uint16 v.
Proof. unfold PutUint16, uint16. now rewrite Uint16_bytes. Qed.

(** [addPrefix] as a list: the two length bytes, then the payload. *)
Lemma addPrefix_cons (p : list byte) :
  addPrefix p =
  byte_of_Z (Z.shiftr (uint16 (len p)) 8) :: byte_of_Z (uint16 (len p)) :: p.
Proof.
  unfold addPrefix, make, len.
  replace (Z.to_nat (2 + Z.of_nat (List.length p)))
    with (S (S (List.length p))) by lia.
  cbn [repeat PutUint16]. unfold copy_at.
  cbn [List.length firstn Nat.add skipn app Nat.sub].
  rewrite repeat_length, Nat.sub_0_r, firstn_all.
  rewrite skipn_all2 by (rewrite repeat_length; lia).
  now rewrite app_nil_r.
Qed.

Lemma addPrefix_length (p : list byte) :
  List.length (addPrefix p) = S (S (List.length p)).
Proof. now rewrite addPrefix_cons. Qed.

(** The declared length of a frame built by [addPrefix]. *)
Lemma Uint16_addPrefix (p tail : list byte) :
  Uint16 (firstn 2 (addPrefix p ++ tail)) = uint16 (len p).
Proof.
  rewrite addPrefix_cons. cbn [app firstn].
  rewrite Uint16_bytes. unfold uint16.
  change (2 ^ 16) with 65536. apply Z.mod_mod. lia.
Qed.

(** One [stream.Read] of a whole frame that fits the buffer. *)
Lemma stream_Read_fits (data b : list byte) :
  (List.length data <= List.length b)%nat ->
  stream_Read data b = (len data, data ++ skipn (List.length data) b).
Proof.
  intros H. unfold stream_Read, len.
  rewrite Nat.min_l by exact H.
  now rewrite firstn_all.
Qed.

(** The frame of a payload of 15 bytes or more that fits the buffer
    passes both checks of the handler. *)
Lemma readFrame_addPrefix (b p : list byte) :
  15 <= len p ->
  len p + 2 <= len b ->
  len b <= MaxMsgSize ->
  readFrame b (addPrefix p)
  = FrameOk (len p + 2) (addPrefix p ++ skipn (List.length p + 2) b).
Proof.
  unfold MaxMsgSize. intros Hmin Hfit Hmax. unfold readFrame.
  rewrite stream_Read_fits
    by (rewrite addPrefix_length; unfold len in *; lia).
  assert (L : len (addPrefix p) = len p + 2)
    by (unfold len; rewrite addPrefix_length; lia).
  rewrite L.
  replace (List.length (addPrefix p)) with (List.length p + 2)%nat
    by (rewrite addPrefix_length; lia).
  unfold minDNSPacketSize.
  destruct (Z.ltb_spec (len p + 2) (12 + 5)) as [?|_]; [lia|].
  rewrite Uint16_addPrefix. unfold uint16.
  rewrite Z.mod_small by lia.
  replace (len p + 2 - 2) with (len p) by lia.
  now rewrite Z.eqb_refl.
Qed.

(** C4, as amended: for every payload P of at least 15 and at most 65533
    bytes, the frame built by [addPrefix] (two big-endian length bytes equal
    to len(P), then P), read by one [stream.Read] into a pooled buffer of
    [MaxMsgSize] bytes, passes the minimum-size check and the prefix check
    of the handler, and the bytes after the prefix that were read,
    [b[2:n]], are exactly P. *)
Theorem framing_round_trip (b p : list byte) :
  len b = MaxMsgSize ->
  15 <= len p <= MaxMsgSize - 2 ->
  exists b',
    readFrame b (addPrefix p) = FrameOk (len p + 2) b'
    /\ firstn (List.length p) (skipn 2 b') = p
    /\ Uint16 (firstn 2 b') = len p.
Proof.
  intros Hb [Hlo Hhi].
  exists (addPrefix p ++ skipn (List.length p + 2) b).
  split; [|split].
  - apply readFrame_addPrefix; lia.
  - rewrite addPrefix_cons. cbn [app skipn].
    rewrite firstn_app, firstn_all, Nat.sub_diag. cbn [firstn].
    now rewrite app_nil_r.
  - rewrite Uint16_addPrefix. unfold uint16, MaxMsgSize in *.
    apply Z.mod_small. lia.
Qed.

(* ================================================================== *)
(** * Properties of the stream handler *)

Section HandlerFacts.

Variable Unpack : list byte -> Msg + error.
Variable Pack : Msg -> list byte.
Variable ServeDNS : Msg -> option Msg.
Variable stream_Write : list byte -> Z * option error.

Abbreviation handle := (handleQUICStream Unpack Pack ServeDNS stream_Write).
Abbreviation worker := (streamWorker Unpack Pack ServeDNS stream_Write).

Lemma readFrame_cases (b data : list byte) (n : Z) (b' : list byte) :
  stream_Read data b = (n, b') ->
  readFrame b data =
  if n <? minDNSPacketSize then FrameIgnored
  else if negb (Uint16 (firstn 2 b') =? n - 2) then FrameMismatch
       else FrameOk n b'.
Proof. intros H. unfold readFrame. now rewrite H. Qed.

(** A decoded message is always handed to the chain; the keepalive
    check only adds [CloseWithError] calls in front of that. *)
Lemma decoded_message_is_served (k : ServerKind) (b data : list byte)
      (n : Z) (b' : list byte) (msg : Msg) :
  readFrame b data = FrameOk n b' ->
  Unpack (skipn 2 b') = inl msg ->
  exists ev,
    fst (handle k b data) = keepaliveCheck msg ++ ChainServeDNS msg :: ev.
Proof.
  intros HF HU. unfold handleQUICStream. rewrite HF, HU.
  destruct (ServeDNS msg) as [response|].
  - destruct (writeResponse stream_Write k (Pack response)) as [ev out].
    exists ev. cbn [fst]. now rewrite <- app_assoc.
  - eexists. cbn [fst]. rewrite <- app_assoc. reflexivity.
Qed.

Lemma keepaliveCheck_closes (msg : Msg) (opts : list Z) :
  IsEdns0 msg = Some opts ->
  In EDNS0TCPKEEPALIVE opts ->
  In SessionCloseWithError (keepaliveCheck msg).
Proof.
  intros HE HI. unfold keepaliveCheck. rewrite HE.
  apply in_flat_map. exists EDNS0TCPKEEPALIVE. split; [exact HI|].
  rewrite Z.eqb_refl. now left.
Qed.

(** C2, as amended: when the single read delivers n >= minDNSPacketSize
    (17) bytes and the 2-byte big-endian prefix differs from n - 2, the
    handler panics with "message size mismatch" before it decodes anything:
    it calls neither the chain nor [stream.Write] nor
    [session.CloseWithError], and since the stream goroutine has no
    [recover], the panic stops the whole program.  When n < 17 the handler
    returns silently, whatever the prefix is, and the goroutine closes the
    stream. *)
Theorem prefix_mismatch_panics (k : ServerKind) (b data : list byte)
        (n : Z) (b' : list byte) :
  stream_Read data b = (n, b') ->
  Uint16 (firstn 2 b') <> n - 2 ->
  (minDNSPacketSize <= n ->
     handle k b data = ([], Panicked "message size mismatch: %d vs %d")
     /\ worker k b data = ([], ProgramCrash "message size mismatch: %d vs %d"))
  /\ (n < minDNSPacketSize ->
        handle k b data = ([], Returned)
        /\ worker k b data = ([StreamClose], Finished)).
Proof.
  intros HR HM.
  pose proof (readFrame_cases b data n b' HR) as HF.
  apply Z.eqb_neq in HM.
  split; intros Hn.
  - assert (E : handle k b data = ([], Panicked "message size mismatch: %d vs %d")).
    { unfold handleQUICStream. rewrite HF.
      destruct (Z.ltb_spec n minDNSPacketSize); [lia|].
      now rewrite HM. }
    split; [exact E|]. unfold streamWorker. now rewrite E.
  - assert (E : handle k b data = ([], Returned)).
    { unfold handleQUICStream. rewrite HF.
      destruct (Z.ltb_spec n minDNSPacketSize); [reflexivity|lia]. }
    split; [exact E|]. unfold streamWorker. now rewrite E.
Qed.

Lemma writeResponse_no_session_close (k : ServerKind) (buf : list byte) :
  ~ In SessionCloseWithError (fst (writeResponse stream_Write k buf)).
Proof.
  unfold writeResponse.
  destruct (stream_Write (addPrefix buf)) as [cnt [e|]];
    destruct k; cbn [fst];
    try destruct (negb (cnt =? len buf)); try destruct (is_net_Error e);
    cbn; intuition discriminate.
Qed.

Lemma writeResponse_writes (k : ServerKind) (buf : list byte) :
  In (StreamWrite (addPrefix buf)) (fst (writeResponse stream_Write k buf)).
Proof.
  unfold writeResponse.
  destruct (stream_Write (addPrefix buf)) as [cnt [e|]];
    destruct k; cbn [fst];
    try destruct (negb (cnt =? len buf)); try destruct (is_net_Error e);
    cbn; intuition.
Qed.

Lemma writeResponse_outcome (k : ServerKind) (buf : list byte)
      (cnt : Z) (e : option error) :
  stream_Write (addPrefix buf) = (cnt, e) ->
  (e = None -> snd (writeResponse stream_Write k buf) = Returned)
  /\ (forall err, e = Some err ->
        In (PrintError err) (fst (writeResponse stream_Write k buf))
        /\ (cnt < len buf ->
            snd (writeResponse stream_Write k buf)
            = Panicked (match k with
                        | QUIC => "stream write failure!"
                        | SQUIC => "EXIT FAILURE"
                        end))).
Proof.
  intros HW. unfold writeResponse. rewrite HW. split.
  - intros ->. reflexivity.
  - intros err ->. split.
    + destruct k; destruct (negb (cnt =? len buf));
        try destruct (is_net_Error err); cbn; intuition.
    + intros Hc. destruct (Z.eqb_spec cnt (len buf)); [lia|].
      destruct k; reflexivity.
Qed.

(** C3, as amended: when the chain produced a response and
    [stream.Write] returns an error, the handler logs the error and never
    calls [session.CloseWithError] on account of the write; if the count
    returned with the error is below the length of the packed response,
    the handler panics ("stream write failure!" in ServerQUIC, "EXIT
    FAILURE" in ServerSQUIC) and, there being no [recover], the program
    stops.  A write that returns no error makes the handler return
    normally, whatever count it reports. *)
Theorem write_failure_handling (k : ServerKind) (b data : list byte)
        (n : Z) (b' : list byte) (msg response : Msg)
        (cnt : Z) (e : option error) :
  readFrame b data = FrameOk n b' ->
  Unpack (skipn 2 b') = inl msg ->
  ServeDNS msg = Some response ->
  stream_Write (addPrefix (Pack response)) = (cnt, e) ->
  exists ev out,
    handle k b data = (keepaliveCheck msg ++ ChainServeDNS msg :: ev, out)
    /\ In (StreamWrite (addPrefix (Pack response))) ev
    /\ ~ In SessionCloseWithError ev
    /\ (e = None ->
        out = Returned
        /\ snd (worker k b data) = Finished)
    /\ (forall err, e = Some err ->
          In (PrintError err) ev
          /\ (cnt < len (Pack response) ->
              exists reason,
                out = Panicked reason
                /\ snd (worker k b data) = ProgramCrash reason)).
Proof.
  intros HF HU HS HW.
  pose proof (writeResponse_no_session_close k (Pack response)) as HN.
  pose proof (writeResponse_writes k (Pack response)) as HI.
  pose proof (writeResponse_outcome k (Pack response) cnt e HW) as [HO HE].
  assert (EQ : handle k b data
          = (keepaliveCheck msg ++ ChainServeDNS msg
               :: fst (writeResponse stream_Write k (Pack response)),
             snd (writeResponse stream_Write k (Pack response)))).
  { unfold handleQUICStream. rewrite HF, HU, HS.
    destruct (writeResponse stream_Write k (Pack response)) as [ev out].
    cbn [fst snd]. now rewrite <- app_assoc. }
  exists (fst (writeResponse stream_Write k (Pack response))),
         (snd (writeResponse stream_Write k (Pack response))).
  split; [exact EQ|]. split; [exact HI|]. split; [exact HN|]. split.
  - intros He. specialize (HO He). split; [exact HO|].
    unfold streamWorker. rewrite EQ, HO. reflexivity.
  - intros err He. destruct (HE err He) as [HP HC]. split; [exact HP|].
    intros Hc. specialize (HC Hc). eexists. split; [exact HC|].
    unfold streamWorker. rewrite EQ, HC. reflexivity.
Qed.

End HandlerFacts.

(** ** The handler on the sample inputs *)

Lemma make_len (n : Z) : 0 <= n -> len (make n) = n.
Proof. intros H. unfold len, make. rewrite repeat_length. lia. Qed.

Lemma framing_round_trip_witness :
  exists b',
    readFrame (make MaxMsgSize) (addPrefix keepaliveQueryBytes)
    = FrameOk (len keepaliveQueryBytes + 2) b'
    /\ firstn (List.length keepaliveQueryBytes) (skipn 2 b')
       = keepaliveQueryBytes
    /\ Uint16 (firstn 2 b') = len keepaliveQueryBytes.
Proof.
  apply (framing_round_trip (make MaxMsgSize) keepaliveQueryBytes).
  - apply make_len. vm_compute. discriminate.
  - vm_compute. split; discriminate.
Defined.

(** The frame of a 12-byte message (a bare DNS header) is 14 bytes long and
    is dropped by the minimum-size check: unframing does not succeed. *)
Lemma framing_round_trip_fails_on_header_only_message :
  len (samplePack plainQuery) = 12
  /\ readFrame (make MaxMsgSize) (addPrefix (samplePack plainQuery))
     = FrameIgnored
  /\ ~ (exists n b',
          readFrame (make MaxMsgSize) (addPrefix (samplePack plainQuery))
          = FrameOk n b').
Proof.
  assert (E : readFrame (make MaxMsgSize) (addPrefix (samplePack plainQuery))
              = FrameIgnored) by (vm_compute; reflexivity).
  split; [reflexivity|]. split; [exact E|].
  intros (n & b' & H). rewrite E in H. discriminate.
Qed.

(** A payload of 65534 bytes does not fit the pooled buffer with its
    prefix: the read stops one byte short and the prefix check fails. *)
Lemma framing_round_trip_fails_on_oversize_message :
  readFrame (make MaxMsgSize) (addPrefix (make 65534)) = FrameMismatch.
Proof. vm_compute. reflexivity. Qed.

Lemma truncatedFrame_fits :
  (List.length truncatedFrame <= List.length (make MaxMsgSize))%nat.
Proof. apply Nat.leb_le. vm_compute. reflexivity. Qed.

(** A 17-byte read whose prefix says 32: the handler panics and the panic
    takes the program down. *)
Lemma prefix_mismatch_crashes_program :
  fst (stream_Read truncatedFrame (make MaxMsgSize)) = 17
  /\ Uint16 (firstn 2 truncatedFrame) = 32
  /\ handleQUICStream sampleUnpack samplePack sampleServeDNS sampleWrite
       QUIC (make MaxMsgSize) truncatedFrame
     = ([], Panicked "message size mismatch: %d vs %d")
  /\ streamWorker sampleUnpack samplePack sampleServeDNS sampleWrite
       QUIC (make MaxMsgSize) truncatedFrame
     = ([], ProgramCrash "message size mismatch: %d vs %d").
Proof. repeat split; vm_compute; reflexivity. Qed.

Lemma prefix_mismatch_panics_witness :
  handleQUICStream sampleUnpack samplePack sampleServeDNS sampleWrite
    SQUIC (make MaxMsgSize) truncatedFrame
  = ([], Panicked "message size mismatch: %d vs %d")
  /\ streamWorker sampleUnpack samplePack sampleServeDNS sampleWrite
       SQUIC (make MaxMsgSize) truncatedFrame
     = ([], ProgramCrash "message size mismatch: %d vs %d").
Proof.
  refine (proj1 (prefix_mismatch_panics
                   sampleUnpack samplePack sampleServeDNS sampleWrite
                   SQUIC (make MaxMsgSize) truncatedFrame
                   (len truncatedFrame)
                   (truncatedFrame
                      ++ skipn (List.length truncatedFrame) (make MaxMsgSize))
                   _ _) _).
  - apply stream_Read_fits. exact truncatedFrame_fits.
  - vm_compute. discriminate.
  - vm_compute. discriminate.
Defined.

(** A write that fails with nothing written: the handler panics and the
    program stops, in both servers. *)
Lemma write_failure_crashes_program :
  failingWrite (addPrefix (samplePack plainQuery))
  = (0, Some (net_Error false "Application error 0x0"))
  /\ streamWorker sampleUnpack samplePack sampleServeDNS failingWrite
       QUIC (make MaxMsgSize) (addPrefix plainQueryBytes)
     = ([ChainServeDNS plainQuery;
         Print "encoded response(without fst 2 bytes): ";
         StreamWrite (addPrefix (samplePack plainQuery));
         PrintError (net_Error false "Application error 0x0")],
        ProgramCrash "stream write failure!")
  /\ snd (streamWorker sampleUnpack samplePack sampleServeDNS failingWrite
            SQUIC (make MaxMsgSize) (addPrefix plainQueryBytes))
     = ProgramCrash "EXIT FAILURE".
Proof. repeat split; vm_compute; reflexivity. Qed.

Lemma write_failure_handling_witness :
  exists ev out,
    handleQUICStream sampleUnpack samplePack sampleServeDNS failingWrite
      QUIC (make MaxMsgSize) (addPrefix plainQueryBytes)
    = (keepaliveCheck plainQuery ++ ChainServeDNS plainQuery :: ev, out)
    /\ In (StreamWrite (addPrefix (samplePack plainQuery))) ev
    /\ ~ In SessionCloseWithError ev
    /\ (Some (net_Error false "Application error 0x0") = None ->
        out = Returned
        /\ snd (streamWorker sampleUnpack samplePack sampleServeDNS
                  failingWrite QUIC (make MaxMsgSize)
                  (addPrefix plainQueryBytes)) = Finished)
    /\ (forall err,
          Some (net_Error false "Application error 0x0") = Some err ->
          In (PrintError err) ev
          /\ (0 < len (samplePack plainQuery) ->
              exists reason,
                out = Panicked reason
                /\ snd (streamWorker sampleUnpack samplePack sampleServeDNS
                          failingWrite QUIC (make MaxMsgSize)
                          (addPrefix plainQueryBytes))
                   = ProgramCrash reason)).
Proof.
  apply (write_failure_handling
           sampleUnpack samplePack sampleServeDNS failingWrite
           QUIC (make MaxMsgSize) (addPrefix plainQueryBytes)
           (len plainQueryBytes + 2)
           (addPrefix plainQueryBytes
              ++ skipn (List.length plainQueryBytes + 2) (make MaxMsgSize))
           plainQuery plainQuery
           0 (Some (net_Error false "Application error 0x0"))).
  - apply readFrame_addPrefix.
    + vm_compute. discriminate.
    + rewrite make_len by (vm_compute; discriminate).
      vm_compute. discriminate.
    + rewrite make_len by (vm_compute; discriminate).
      vm_compute. discriminate.
  - vm_compute. reflexivity.
  - reflexivity.
  - reflexivity.
Defined.

(** C1, at a failing input: a well-framed query whose OPT record carries
    the edns-tcp-keepalive option.  The handler calls
    [session.CloseWithError] and then goes on: it invokes the DNS chain
    with the message and writes the chain's response to the stream.  When
    that write fails with nothing written, as on a session that is closed,
    the handler panics and the program stops. *)
Theorem keepalive_query_is_still_served :
  IsEdns0 keepaliveQuery = Some [EDNS0TCPKEEPALIVE]
  /\ handleQUICStream sampleUnpack samplePack sampleServeDNS sampleWrite
       QUIC (make MaxMsgSize) (addPrefix keepaliveQueryBytes)
     = ([SessionCloseWithError;
         ChainServeDNS keepaliveQuery;
         Print "encoded response(without fst 2 bytes): ";
         StreamWrite (addPrefix (samplePack plainQuery))],
        Returned)
  /\ handleQUICStream sampleUnpack samplePack sampleServeDNS sampleWrite
       SQUIC (make MaxMsgSize) (addPrefix keepaliveQueryBytes)
     = ([SessionCloseWithError;
         ChainServeDNS keepaliveQuery;
         StreamWrite (addPrefix (samplePack plainQuery));
         Print "wrote %d bytes to stream"],
        Returned)
  /\ streamWorker sampleUnpack samplePack sampleServeDNS failingWrite
       QUIC (make MaxMsgSize) (addPrefix keepaliveQueryBytes)
     = ([SessionCloseWithError;
         ChainServeDNS keepaliveQuery;
         Print "encoded response(without fst 2 bytes): ";
         StreamWrite (addPrefix (samplePack plainQuery));
         PrintError (net_Error false "Application error 0x0")],
        ProgramCrash "stream write failure!").
Proof. repeat split; vm_compute; reflexivity. Qed.

(* ================================================================== *)
(** * Properties of the dial timeout *)

Lemma wrap64_small (z : Z) : - 2 ^ 63 <= z < 2 ^ 63 -> wrap64 z = z.
Proof. intros H. unfold wrap64. rewrite Z.mod_small; lia. Qed.

Lemma limitTimeout_floor (avg floor ceiling : Z) :
  avg < floor -> limitTimeout avg floor ceiling = floor.
Proof.
  intros H. unfold limitTimeout.
  destruct (Z.ltb_spec avg floor); [reflexivity|lia].
Qed.

Lemma limitTimeout_double (avg floor ceiling : Z) :
  0 <= floor -> ceiling < 2 ^ 63 ->
  floor <= avg < Z.quot ceiling 2 ->
  limitTimeout avg floor ceiling = 2 * avg.
Proof.
  intros Hf Hc [H1 H2]. unfold limitTimeout.
  destruct (Z.ltb_spec avg floor); [lia|].
  destruct (Z.ltb_spec avg (Z.quot ceiling 2)); [|lia].
  apply wrap64_small.
  assert (Z.quot ceiling 2 <= 2 ^ 62)
    by (Z.to_euclidean_division_equations; lia).
  lia.
Qed.

Lemma limitTimeout_ceiling (avg floor ceiling : Z) :
  floor <= avg -> Z.quot ceiling 2 <= avg ->
  limitTimeout avg floor ceiling = ceiling.
Proof.
  intros H1 H2. unfold limitTimeout.
  destruct (Z.ltb_spec avg floor); [lia|].
  destruct (Z.ltb_spec avg (Z.quot ceiling 2)); [lia|reflexivity].
Qed.

Lemma averageTimeout_exact (avg observed : Z) :
  0 <= avg < 2 ^ 62 -> 0 <= observed < 2 ^ 62 ->
  averageTimeout avg observed cumulativeAvgWeight
  = avg + Z.quot (observed - avg) 4.
Proof.
  intros Ha Ho. unfold averageTimeout, cumulativeAvgWeight.
  rewrite (wrap64_small (observed - avg)) by lia.
  apply wrap64_small.
  Z.to_euclidean_division_equations. lia.
Qed.

(** One observation moves the average toward the observed value: the
    distance shrinks by at least one until it is 3 or less. *)
Lemma averageTimeout_approaches (avg observed : Z) :
  0 <= avg < 2 ^ 62 -> 0 <= observed < 2 ^ 62 ->
  0 <= averageTimeout avg observed cumulativeAvgWeight < 2 ^ 62
  /\ Z.abs (averageTimeout avg observed cumulativeAvgWeight - observed)
     <= Z.max 3 (Z.abs (avg - observed) - 1).
Proof.
  intros Ha Ho. rewrite averageTimeout_exact by assumption.
  Z.to_euclidean_division_equations. lia.
Qed.

Lemma observeAll_constant (latency : Z) (n : nat) :
  0 <= latency < 2 ^ 62 ->
  forall t : Transport,
    0 <= avgDialTime t < 2 ^ 62 ->
    0 <= avgDialTime (observeAll t (repeat latency n)) < 2 ^ 62
    /\ Z.abs (avgDialTime (observeAll t (repeat latency n)) - latency)
       <= Z.max 3 (Z.abs (avgDialTime t - latency) - Z.of_nat n).
Proof.
  intros HL. induction n as [|n IH]; intros t Ht.
  - cbn. lia.
  - cbn [repeat observeAll fold_left].
    destruct (averageTimeout_approaches (avgDialTime t) latency Ht HL)
      as [R D].
    specialize (IH (updateDialTimeout t latency) R).
    unfold observeAll in IH. cbn [updateDialTimeout avgDialTime] in IH |- *.
    destruct IH as [R' D']. split; [exact R'|]. lia.
Qed.

(** After an observation at or above the ceiling, the average is at least
    half the ceiling as soon as it was a third of the ceiling before. *)
Lemma averageTimeout_reaches_half (avg observed ceiling : Z) :
  0 <= ceiling -> ceiling <= 3 * avg -> avg < 2 ^ 62 ->
  ceiling <= observed < 2 ^ 62 ->
  Z.quot ceiling 2 <= averageTimeout avg observed cumulativeAvgWeight
  /\ Z.min avg ceiling <= averageTimeout avg observed cumulativeAvgWeight.
Proof.
  intros Hc H3 Ha Ho. rewrite averageTimeout_exact by lia.
  Z.to_euclidean_division_equations. lia.
Qed.

(** C8, as amended: with a floor >= 0 and a ceiling >= 0 in the [int64]
    range and a running average in [0, 2^62),
    the next dial timeout is the floor when the running average is below
    the floor, twice the average when the average is at least the floor and
    below half the ceiling, and the ceiling otherwise; an observation is
    folded in as avg += (observed - avg) / 4, the division truncating
    toward zero.  For a constant observed latency L with floor + 3 <= L and
    L + 3 < ceiling / 2, the average comes within 3 of L after at most
    |avg - L| - 3 observations and stays there, so the timeout settles
    within 6 of 2 L.  A single observation at or above the ceiling yields
    the ceiling when the average before it was at least a third of the
    ceiling (and the floor is at most half the ceiling). *)
Theorem adaptive_dial_timeout (floor ceiling : Z) (t : Transport) :
  0 <= floor -> 0 <= ceiling < 2 ^ 63 -> 0 <= avgDialTime t < 2 ^ 62 ->
  (avgDialTime t < floor -> dialTimeout floor ceiling t = floor)
  /\ (floor <= avgDialTime t < Z.quot ceiling 2 ->
      dialTimeout floor ceiling t = 2 * avgDialTime t)
  /\ (floor <= avgDialTime t -> Z.quot ceiling 2 <= avgDialTime t ->
      dialTimeout floor ceiling t = ceiling)
  /\ (forall observed, 0 <= observed < 2 ^ 62 ->
        avgDialTime (updateDialTimeout t observed)
        = avgDialTime t + Z.quot (observed - avgDialTime t) 4)
  /\ (forall (L : Z) (n : nat),
        floor + 3 <= L -> L + 3 < Z.quot ceiling 2 ->
        Z.abs (avgDialTime t - L) <= Z.of_nat n + 3 ->
        Z.abs (avgDialTime (observeAll t (repeat L n)) - L) <= 3
        /\ Z.abs (dialTimeout floor ceiling (observeAll t (repeat L n))
                  - 2 * L) <= 6)
  /\ (forall observed,
        floor <= Z.quot ceiling 2 -> ceiling <= 3 * avgDialTime t ->
        ceiling <= observed < 2 ^ 62 ->
        dialTimeout floor ceiling (updateDialTimeout t observed) = ceiling).
Proof.
  intros Hf Hc Ht. unfold dialTimeout.
  assert (Hq : Z.quot ceiling 2 <= 2 ^ 62)
    by (Z.to_euclidean_division_equations; lia).
  repeat split.
  - apply limitTimeout_floor.
  - intros H. now apply limitTimeout_double.
  - apply limitTimeout_ceiling.
  - intros observed Ho. cbn [updateDialTimeout avgDialTime].
    now apply averageTimeout_exact.
  - destruct (observeAll_constant L n) with (t := t) as [_ D]; lia.
  - assert (HL : 0 <= L < 2 ^ 62) by lia.
    destruct (observeAll_constant L n HL t Ht) as [_ D].
    rewrite limitTimeout_double by lia. lia.
  - intros observed Hfc H3 Ho. cbn [updateDialTimeout avgDialTime].
    destruct (averageTimeout_reaches_half (avgDialTime t) observed ceiling)
      as [Hh Hm]; try lia.
    apply limitTimeout_ceiling; [|exact Hh].
    assert (Z.quot ceiling 2 <= ceiling)
      by (Z.to_euclidean_division_equations; lia).
    lia.
Qed.

Lemma adaptive_dial_timeout_witness :
  dialTimeout sampleMinDialTimeout sampleMaxDialTimeout
    (transport (sampleProxy "8.8.8.8:53"))
  = sampleMaxDialTimeout
  /\ dialTimeout sampleMinDialTimeout sampleMaxDialTimeout
       (updateDialTimeout (transport (sampleProxy "8.8.8.8:53"))
                          sampleMaxDialTimeout)
     = sampleMaxDialTimeout
  /\ Z.abs (dialTimeout sampleMinDialTimeout sampleMaxDialTimeout
              (observeAll (transport (sampleProxy "8.8.8.8:53"))
                          (repeat 14999999990 7))
            - 2 * 14999999990) <= 6.
Proof.
  destruct (adaptive_dial_timeout
              sampleMinDialTimeout sampleMaxDialTimeout
              (transport (sampleProxy "8.8.8.8:53")))
    as (_ & _ & C & _ & E & F).
  - vm_compute. discriminate.
  - vm_compute. split; [discriminate|reflexivity].
  - vm_compute. split; [discriminate|reflexivity].
  - split; [|split].
    + apply C; vm_compute; discriminate.
    + apply F; vm_compute; try discriminate. split; [discriminate|reflexivity].
    + apply (E 14999999990 7%nat); vm_compute; try discriminate; reflexivity.
Defined.

(** After fast dials have brought the average down to 1 ms, one dial that
    takes the whole ceiling of 30 s raises the timeout to about 15 s only. *)
Lemma slow_dial_after_fast_ones_is_below_ceiling :
  dialTimeout sampleMinDialTimeout sampleMaxDialTimeout
    (updateDialTimeout
       {| avgDialTime := 1000000; tlsConfig := false; t_addr := "8.8.8.8:53" |}
       sampleMaxDialTimeout)
  = 15001500000
  /\ 15001500000 <> sampleMaxDialTimeout.
Proof. split; [vm_compute; reflexivity|discriminate]. Qed.

(** Without the margin of 3 the timeout need not come near 2 L: with
    L one nanosecond above the floor, an average 2 ns below the floor never
    moves, and the timeout stays at the floor. *)
Lemma constant_latency_just_above_floor_stays_at_floor (n : nat) :
  dialTimeout sampleMinDialTimeout sampleMaxDialTimeout
    (observeAll
       {| avgDialTime := 999999998; tlsConfig := false; t_addr := "8.8.8.8:53" |}
       (repeat 1000000001 n))
  = sampleMinDialTimeout.
Proof.
  induction n as [|n IH]; [reflexivity|].
  cbn [repeat observeAll fold_left]. exact IH.
Qed.

(* ================================================================== *)
(** * Properties of [Connect] *)

Lemma set_Id_Id (m : Msg) (id : Z) : Id (set_Id m id) = id.
Proof. reflexivity. Qed.

Lemma set_Id_restore (m : Msg) (id : Z) : set_Id (set_Id m id) (Id m) = m.
Proof. destruct m. reflexivity. Qed.

Section ConnectFacts.

Variables minDialTimeout maxDialTimeout : Z.
Variable ParseUDPAddr_ok : string -> bool.
Variable url_Parse : string -> option URL.
Variable Proxy_Addr : Proxy -> string.

Abbreviation connect :=
  (Connect minDialTimeout maxDialTimeout ParseUDPAddr_ok url_Parse Proxy_Addr).
Abbreviation select := (selectProto ParseUDPAddr_ok url_Parse Proxy_Addr).
Abbreviation dial := (Dial minDialTimeout maxDialTimeout).

(** What [selectProto] computes, case by case. *)
Lemma selectProto_cases (p : Proxy) (state : Request) (opts : Options) :
  fst (select p state opts)
  = if ParseUDPAddr_ok (Proxy_Addr p)
    then (if ForceTCP opts then "tcp"
          else if PreferUDP opts then "udp" else Proto state)
    else match url_Parse (addr p) with
         | Some u => Scheme u
         | None => "udp"
         end.
Proof.
  unfold selectProto.
  destruct (ParseUDPAddr_ok (Proxy_Addr p)); [reflexivity|].
  destruct (url_Parse (addr p)); reflexivity.
Qed.

Lemma selectProto_trace (p : Proxy) (state : Request) (opts : Options)
      (e : ProxyEvent) :
  In e (snd (select p state opts)) -> exists line, e = Printf line.
Proof.
  unfold selectProto.
  destruct (ParseUDPAddr_ok (Proxy_Addr p)); cbn.
  - intros [<-|[]]. eexists. reflexivity.
  - destruct (url_Parse (addr p)); cbn; intros [].
Qed.

Lemma Dial_trace (t : Transport) (u : Upstream) (proto : string)
      (t' : Transport) (cached : bool) (e : option error)
      (ev : list ProxyEvent) (x : ProxyEvent) :
  dial t u proto = (t', cached, e, ev) ->
  In x ev -> exists pr d, x = DialFresh pr d.
Proof.
  unfold Dial.
  destruct (pooled u (if tlsConfig t then "tcp-tls" else proto)).
  - intros [= <- <- <- <-] [].
  - destruct (dialResult u _ _) as [e' elapsed].
    intros [= <- <- <- <-] [<-|[]]. eexists _, _. reflexivity.
Qed.

(** [Dial] reports a cached connection exactly when the pool had one. *)
Lemma Dial_cached (t : Transport) (u : Upstream) (proto : string) :
  snd (fst (fst (dial t u proto)))
  = pooled u (if tlsConfig t then "tcp-tls" else proto).
Proof.
  unfold Dial.
  destruct (pooled u (if tlsConfig t then "tcp-tls" else proto));
    [reflexivity|].
  destruct (dialResult u _ _). reflexivity.
Qed.

(** Every message that leaves the read loop carries the original ID. *)
Lemma readLoop_Id (proto : string) (cached : bool) (sent originId : Z)
      (rs : list ReadResult) :
  forall (acc : list ProxyEvent) (m : Msg) (e : option error)
         (ev : list ProxyEvent),
    readLoop proto cached sent originId rs acc = Some (Some m, e, ev) ->
    Id m = originId.
Proof.
  induction rs as [|r rs IH]; intros acc m e ev; cbn [readLoop].
  - discriminate.
  - destruct r as [m0|m0 e0].
    + destruct (sent =? Id m0).
      * intros [= <- _ _]. reflexivity.
      * apply IH.
    + destruct ((proto =? "udp")%string && negb (is_net_Error e0)).
      * apply IH.
      * destruct (is_EOF e0 && cached); [discriminate|].
        destruct m0 as [m0|]; cbn [option_map]; [|discriminate].
        intros [= <- _ _]. reflexivity.
Qed.

(** Replies with another ID are read and dropped, one [ReadMsg] each. *)
Lemma readLoop_skips_mismatched (proto : string) (cached : bool)
      (sent originId : Z) (mism : list Msg) (rs : list ReadResult) :
  Forall (fun m => Id m <> sent) mism ->
  forall acc,
    readLoop proto cached sent originId (map ReadOk mism ++ rs) acc
    = readLoop proto cached sent originId rs
               (acc ++ repeat ReadMsg (List.length mism)).
Proof.
  induction 1 as [|m mism Hm _ IH]; intros acc.
  - cbn. now rewrite app_nil_r.
  - cbn [map app readLoop List.length repeat].
    destruct (Z.eqb_spec sent (Id m)) as [E|_]; [congruence|].
    rewrite IH, <- app_assoc. reflexivity.
Qed.

(** With the protocol "udp", a read error that is not a [net.Error] -
    [io.EOF] among them - does not end the loop. *)
Lemma readLoop_udp_keeps_reading (cached : bool) (sent originId : Z)
      (m : option Msg) (e : error) (rs : list ReadResult)
      (acc : list ProxyEvent) :
  is_net_Error e = false ->
  readLoop "udp" cached sent originId (ReadErr m e :: rs) acc
  = readLoop "udp" cached sent originId rs (acc ++ [ReadMsg]).
Proof. intros H. cbn. now rewrite H. Qed.

(** C5: whenever [Connect] returns a message - with a nil error or with
    an error - the ID of that message is the ID the client's request had
    when [Connect] was called, and so is not the freshly drawn upstream ID
    (unless the two IDs are the same number). *)
Theorem Connect_restores_response_Id (p : Proxy) (u : Upstream)
        (state : Request) (opts : Options) (r : Connected) (m : Msg) :
  connect p u state opts = Some r ->
  ret r = Some m ->
  Id m = Id (Req state)
  /\ (freshId u <> Id (Req state) -> Id m <> freshId u).
Proof.
  intros HC HR.
  assert (E : Id m = Id (Req state)); [|split; [exact E|congruence]].
  revert HC. unfold Connect.
  destruct (select p state opts) as [proto ev0].
  destruct (dial (transport p) u proto) as [[[t cached] e] ev1].
  destruct e as [e|].
  { intros [= <-]. discriminate HR. }
  destruct (writeResult u) as [e|].
  { intros [= <-]. discriminate HR. }
  destruct (readLoop _ _ _ _ _ _) as [[[r0 e0] ev]|] eqn:HL; [|discriminate].
  intros [= <-]. cbn [ret] in HR. subst r0.
  exact (readLoop_Id _ _ _ _ _ _ _ _ _ HL).
Qed.

(** C10: whenever [Connect] returns - after a failed dial, a failed
    write, a failed read or a matched reply - the caller's request message
    is as it was at the call; in particular its ID is the original one. *)
Theorem Connect_leaves_request_Id (p : Proxy) (u : Upstream)
        (state : Request) (opts : Options) (r : Connected) :
  connect p u state opts = Some r ->
  Id (Req_after r) = Id (Req state) /\ Req_after r = Req state.
Proof.
  unfold Connect.
  destruct (select p state opts) as [proto ev0].
  destruct (dial (transport p) u proto) as [[[t cached] e] ev1].
  destruct e as [e|].
  { intros [= <-]. split; reflexivity. }
  destruct (writeResult u) as [e|].
  { intros [= <-]. cbn [Req_after]. now rewrite set_Id_restore. }
  destruct (readLoop _ _ _ _ _ _) as [[[r0 e0] ev]|]; [|discriminate].
  intros [= <-]. cbn [Req_after]. now rewrite set_Id_restore.
Qed.

(** Before the first read the trace holds no [ReadMsg], [ConnClose] or
    [Yield]. *)
Lemma setup_trace (p : Proxy) (u : Upstream) (state : Request)
      (opts : Options) (proto : string) (ev0 ev1 : list ProxyEvent)
      (t : Transport) (cached : bool) (e : option error)
      (size : Z) (q : Msg) (x : ProxyEvent) :
  select p state opts = (proto, ev0) ->
  dial (transport p) u proto = (t, cached, e, ev1) ->
  In x ((ev0 ++ ev1 ++ [SetUDPSize size; SetWriteDeadline; WriteMsg q])
          ++ [SetReadDeadline]) ->
  x <> ReadMsg /\ x <> ConnClose /\ x <> Yield.
Proof.
  intros HS HD HI.
  rewrite <- !app_assoc in HI.
  apply in_app_or in HI. destruct HI as [HI|HI].
  - pose proof (selectProto_trace p state opts x) as H.
    rewrite HS in H. destruct (H HI) as [line ->].
    repeat split; discriminate.
  - apply in_app_or in HI. destruct HI as [HI|HI].
    + destruct (Dial_trace _ _ _ _ _ _ _ x HD HI) as (pr & d & ->).
      repeat split; discriminate.
    + cbn in HI. destruct HI as [<-|[<-|[<-|[<-|[]]]]];
        repeat split; discriminate.
Qed.

(** C6: when the dial and the write succeed and the connection yields N
    replies whose IDs differ from the ID sent upstream, then a reply with
    that ID, [Connect] reads N + 1 times, never closes the connection,
    yields it to the pool and returns, with a nil error, the matching
    reply (its ID set back to the client's). *)
Theorem Connect_discards_mismatched_replies
        (p : Proxy) (u : Upstream) (state : Request) (opts : Options)
        (proto : string) (ev0 ev1 : list ProxyEvent) (t : Transport)
        (cached : bool) (mism : list Msg) (m : Msg)
        (rest : list ReadResult) :
  select p state opts = (proto, ev0) ->
  dial (transport p) u proto = (t, cached, None, ev1) ->
  writeResult u = None ->
  reads u = map ReadOk mism ++ ReadOk m :: rest ->
  Forall (fun x => Id x <> freshId u) mism ->
  Id m = freshId u ->
  exists r pre,
    connect p u state opts = Some r
    /\ ret r = Some (set_Id m (Id (Req state)))
    /\ err r = None
    /\ trace r = pre ++ repeat ReadMsg (S (List.length mism)) ++ [Yield]
    /\ ~ In ReadMsg pre /\ ~ In ConnClose pre /\ ~ In Yield pre.
Proof.
  intros HS HD HW HR HF HM.
  unfold Connect. rewrite HS, HD, HW, HR.
  cbn [Id set_Id].
  rewrite readLoop_skips_mismatched by exact HF.
  cbn [readLoop]. rewrite HM, Z.eqb_refl.
  eexists.
  exists ((ev0 ++ ev1
             ++ [SetUDPSize (if uint16 (Size state) <? 512
                             then 512 else uint16 (Size state));
                 SetWriteDeadline;
                 WriteMsg (set_Id (Req state) (freshId u))])
            ++ [SetReadDeadline]).
  split; [reflexivity|]. cbn [ret err trace].
  split; [reflexivity|]. split; [reflexivity|]. split.
  - cbn [repeat]. rewrite repeat_cons. rewrite <- !app_assoc. reflexivity.
  - repeat split; intros HI;
      destruct (setup_trace _ _ _ _ _ _ _ _ _ _ _ _ _ HS HD HI)
        as (A & B & C); congruence.
Qed.

(** C7, as amended: after a successful dial, when the write fails with
    [io.EOF], or when - the resolved protocol not being "udp" - a read
    fails with [io.EOF] (after any number of dropped replies with another
    ID), [Connect] closes the connection, does not yield it, and returns
    [ErrCachedClosed] if and only if the connection came from the cache;
    for a freshly dialed connection it returns [io.EOF] itself. *)
Theorem Connect_peer_closed
        (p : Proxy) (u : Upstream) (state : Request) (opts : Options)
        (proto : string) (ev0 ev1 : list ProxyEvent) (t : Transport)
        (cached : bool) (mism : list Msg) (m : option Msg)
        (rest : list ReadResult) :
  select p state opts = (proto, ev0) ->
  dial (transport p) u proto = (t, cached, None, ev1) ->
  writeResult u = Some io_EOF
  \/ (writeResult u = None
      /\ proto <> "udp"
      /\ reads u = map ReadOk mism ++ ReadErr m io_EOF :: rest
      /\ Forall (fun x => Id x <> freshId u) mism) ->
  exists r pre,
    connect p u state opts = Some r
    /\ err r = Some (if cached then ErrCachedClosed else io_EOF)
    /\ (err r = Some ErrCachedClosed <-> cached = true)
    /\ (cached = true -> ret r = None)
    /\ trace r = pre ++ [ConnClose]
    /\ ~ In ConnClose pre /\ ~ In Yield pre.
Proof.
  intros HS HD HC.
  set (size := if uint16 (Size state) <? 512
               then 512 else uint16 (Size state)).
  set (q := set_Id (Req state) (freshId u)).
  set (setup := ev0 ++ ev1 ++ [SetUDPSize size; SetWriteDeadline; WriteMsg q]).
  assert (Hsetup : forall x, In x (setup ++ [SetReadDeadline]) ->
                             x <> ReadMsg /\ x <> ConnClose /\ x <> Yield).
  { intros x HI.
    exact (setup_trace p u state opts proto ev0 ev1 t cached None
                       size q x HS HD HI). }
  destruct HC as [HW|(HW & HP & HR & HF)].
  - exists {| ret := None;
              err := Some (if cached then ErrCachedClosed else io_EOF);
              Req_after := set_Id q (Id (Req state));
              transport_after := t;
              trace := setup ++ [ConnClose] |}.
    exists setup.
    split.
    { unfold Connect. rewrite HS, HD, HW. reflexivity. }
    cbn [ret err trace].
    split; [reflexivity|]. split.
    { destruct cached; split; congruence. }
    split; [reflexivity|]. split; [reflexivity|].
    split; intros HI;
      destruct (Hsetup _ (in_or_app _ _ _ (or_introl HI))) as (A & B & C);
      congruence.
  - set (pre := (setup ++ [SetReadDeadline])
                  ++ repeat ReadMsg (List.length mism) ++ [ReadMsg]).
    assert (Hpre : forall x, In x pre -> x <> ConnClose /\ x <> Yield).
    { intros x HI. apply in_app_or in HI. destruct HI as [HI|HI].
      - destruct (Hsetup x HI) as (A & B & C). now split.
      - assert (x = ReadMsg) as ->.
        { apply in_app_or in HI. destruct HI as [HI|[<-|[]]];
            [now apply repeat_spec in HI|reflexivity]. }
        split; discriminate. }
    exists {| ret := if cached then None
                     else option_map (fun r => set_Id r (Id (Req state))) m;
              err := Some (if cached then ErrCachedClosed else io_EOF);
              Req_after := set_Id q (Id (Req state));
              transport_after := t;
              trace := pre ++ [ConnClose] |}.
    exists pre.
    split.
    { unfold Connect. rewrite HS, HD, HW, HR.
      cbn [Id set_Id].
      rewrite readLoop_skips_mismatched by exact HF.
      cbn [readLoop is_net_Error negb is_EOF].
      apply String.eqb_neq in HP. rewrite HP. cbn [andb].
      fold size. fold q. fold setup.
      replace (((setup ++ [SetReadDeadline])
                  ++ repeat ReadMsg (List.length mism))
                 ++ [ReadMsg; ConnClose])
        with (pre ++ [ConnClose])
        by (unfold pre; rewrite <- !app_assoc; reflexivity).
      destruct cached; reflexivity. }
    cbn [ret err trace].
    split; [reflexivity|]. split.
    { destruct cached; split; congruence. }
    split; [intros ->; reflexivity|]. split; [reflexivity|].
    split; intros HI; destruct (Hpre _ HI); congruence.
Qed.

End ConnectFacts.

(** ** [Connect] on the sample inputs *)

Lemma Connect_restores_response_Id_witness :
  Id (reply 7) = Id (Req clientRequest)
  /\ (4242 <> Id (Req clientRequest) -> Id (reply 7) <> 4242).
Proof.
  eapply (Connect_restores_response_Id
            sampleMinDialTimeout sampleMaxDialTimeout
            sampleParseUDPAddr_ok sampleUrlParse addr
            (sampleProxy "tcp://8.8.8.8:53")
            (sampleUpstream false None
               [ReadErr (Some (reply 4242)) (other_error "dns: bad rdata")])
            clientRequest noOptions).
  - vm_compute. reflexivity.
  - reflexivity.
Defined.

Lemma Connect_leaves_request_Id_witness :
  exists r,
    sampleConnect "tcp://8.8.8.8:53"
      (sampleUpstream true None [ReadOk (reply 1); ReadOk (reply 4242)])
    = Some r
    /\ Id (Req_after r) = Id (Req clientRequest)
    /\ Req_after r = Req clientRequest.
Proof.
  eexists. split.
  - vm_compute. reflexivity.
  - apply (Connect_leaves_request_Id
             sampleMinDialTimeout sampleMaxDialTimeout
             sampleParseUDPAddr_ok sampleUrlParse addr
             (sampleProxy "tcp://8.8.8.8:53")
             (sampleUpstream true None [ReadOk (reply 1); ReadOk (reply 4242)])
             clientRequest noOptions).
    vm_compute. reflexivity.
Defined.

(** The four ways out of [Connect]: a failed dial, a failed write, a
    failed read and a matched reply.  The request keeps the ID 7 in each,
    although the ID 4242 went upstream. *)
Lemma Connect_exit_paths :
  option_map (fun r => (err r, Id (Req_after r)))
    (sampleConnect "8.8.8.8" (sampleUpstream false None []))
  = Some (Some (other_error "dial: unknown network"), 7)
  /\ option_map (fun r => (err r, Id (Req_after r)))
       (sampleConnect "tcp://8.8.8.8:53"
          (sampleUpstream false (Some (net_Error true "i/o timeout")) []))
     = Some (Some (net_Error true "i/o timeout"), 7)
  /\ option_map (fun r => (err r, Id (Req_after r)))
       (sampleConnect "tcp://8.8.8.8:53"
          (sampleUpstream false None
             [ReadErr None (net_Error true "i/o timeout")]))
     = Some (Some (net_Error true "i/o timeout"), 7)
  /\ option_map (fun r => (err r, Id (Req_after r), trace r))
       (sampleConnect "tcp://8.8.8.8:53"
          (sampleUpstream false None [ReadOk (reply 4242)]))
     = Some (None, 7,
             [DialFresh "tcp" 30000000000; SetUDPSize 1232; SetWriteDeadline;
              WriteMsg (reply 4242); SetReadDeadline; ReadMsg; Yield]).
Proof. repeat split; vm_compute; reflexivity. Qed.

Lemma Connect_discards_mismatched_replies_witness :
  exists r pre,
    sampleConnect "tcp://8.8.8.8:53"
      (sampleUpstream true None
         [ReadOk (reply 1); ReadOk (reply 2); ReadOk (reply 4242)])
    = Some r
    /\ ret r = Some (set_Id (reply 4242) (Id (Req clientRequest)))
    /\ err r = None
    /\ trace r = pre ++ repeat ReadMsg 3 ++ [Yield]
    /\ ~ In ReadMsg pre /\ ~ In ConnClose pre /\ ~ In Yield pre.
Proof.
  apply (Connect_discards_mismatched_replies
           sampleMinDialTimeout sampleMaxDialTimeout
           sampleParseUDPAddr_ok sampleUrlParse addr
           (sampleProxy "tcp://8.8.8.8:53")
           (sampleUpstream true None
              [ReadOk (reply 1); ReadOk (reply 2); ReadOk (reply 4242)])
           clientRequest noOptions
           "tcp" [] [] (transport (sampleProxy "tcp://8.8.8.8:53")) true
           [reply 1; reply 2] (reply 4242) []).
  - reflexivity.
  - reflexivity.
  - reflexivity.
  - reflexivity.
  - repeat constructor; cbn; discriminate.
  - reflexivity.
Defined.

Lemma Connect_peer_closed_witness :
  exists r pre,
    sampleConnect "tcp://8.8.8.8:53"
      (sampleUpstream true None [ReadOk (reply 1); ReadErr None io_EOF])
    = Some r
    /\ err r = Some ErrCachedClosed
    /\ (err r = Some ErrCachedClosed <-> true = true)
    /\ (true = true -> ret r = None)
    /\ trace r = pre ++ [ConnClose]
    /\ ~ In ConnClose pre /\ ~ In Yield pre.
Proof.
  apply (Connect_peer_closed
           sampleMinDialTimeout sampleMaxDialTimeout
           sampleParseUDPAddr_ok sampleUrlParse addr
           (sampleProxy "tcp://8.8.8.8:53")
           (sampleUpstream true None [ReadOk (reply 1); ReadErr None io_EOF])
           clientRequest noOptions
           "tcp" [] [] (transport (sampleProxy "tcp://8.8.8.8:53")) true
           [reply 1] None []).
  - reflexivity.
  - reflexivity.
  - right. split; [reflexivity|]. split; [discriminate|].
    split; [reflexivity|]. repeat constructor; cbn; discriminate.
Defined.

(** With the resolved protocol "udp" a read of a cached connection that
    fails with [io.EOF] is passed over: when a matching reply follows,
    [Connect] succeeds and yields the connection; when a time-out follows,
    it returns the time-out, not [ErrCachedClosed]. *)
Lemma Connect_udp_EOF_is_not_stale :
  fst (selectProto sampleParseUDPAddr_ok sampleUrlParse addr
         (sampleProxy "8.8.8.8:53") clientRequest noOptions) = "udp"
  /\ sampleConnect "8.8.8.8:53"
       (sampleUpstream true None [ReadErr None io_EOF; ReadOk (reply 4242)])
     = Some {| ret := Some (reply 7);
               err := None;
               Req_after := Req clientRequest;
               transport_after := transport (sampleProxy "8.8.8.8:53");
               trace := [SetUDPSize 1232; SetWriteDeadline;
                         WriteMsg (reply 4242); SetReadDeadline;
                         ReadMsg; ReadMsg; Yield] |}
  /\ sampleConnect "8.8.8.8:53"
       (sampleUpstream true None
          [ReadErr None io_EOF; ReadErr None (net_Error true "i/o timeout")])
     = Some {| ret := None;
               err := Some (net_Error true "i/o timeout");
               Req_after := Req clientRequest;
               transport_after := transport (sampleProxy "8.8.8.8:53");
               trace := [SetUDPSize 1232; SetWriteDeadline;
                         WriteMsg (reply 4242); SetReadDeadline;
                         ReadMsg; ReadMsg; ConnClose] |}.
Proof. repeat split; vm_compute; reflexivity. Qed.

(** C9, at a failing input: the upstream address "8.8.8.8", which is not
    a SCION address and which [url.Parse] accepts as a URL without a
    scheme.  The protocol handed to [Dial] is then the empty string,
    whatever the options and the client's protocol are: neither the
    default nor "udp". *)
Theorem address_without_scheme_selects_empty_protocol :
  sampleUrlParse "8.8.8.8"
  = Some {| Scheme := ""; Host := ""; Path := "8.8.8.8" |}
  /\ selectProto sampleParseUDPAddr_ok sampleUrlParse addr
       (sampleProxy "8.8.8.8") clientRequest noOptions
     = ("", [])
  /\ selectProto sampleParseUDPAddr_ok sampleUrlParse addr
       (sampleProxy "8.8.8.8") clientRequest
       {| ForceTCP := true; PreferUDP := false |}
     = ("", [])
  /\ option_map (fun r => (err r, trace r))
       (sampleConnect "8.8.8.8" (sampleUpstream false None []))
     = Some (Some (other_error "dial: unknown network"),
             [DialFresh "" 30000000000]).
Proof. repeat split; vm_compute; reflexivity. Qed.

(* ================================================================== *)
(** * Further properties of the framing and of the stream handler *)

Lemma byte_of_Z_of_byte (c : byte) : byte_of_Z (Z_of_byte c) = c.
Proof.
  unfold byte_of_Z, Z_of_byte.
  pose proof (Byte.to_N_bounded c) as B.
  rewrite Z.mod_small by lia.
  rewrite N2Z.id. now rewrite Byte.of_to_N.
Qed.

Lemma byte_of_Z_mod (z : Z) : byte_of_Z (z mod 256) = byte_of_Z z.
Proof. unfold byte_of_Z. rewrite Z.mod_mod by lia. reflexivity. Qed.

Lemma Z_of_byte_range (c : byte) : 0 <= Z_of_byte c < 256.
Proof.
  unfold Z_of_byte. pose proof (Byte.to_N_bounded c). lia.
Qed.

(** The value of two big-endian bytes. *)
Lemma Uint16_value (b0 b1 : byte) (rest : list byte) :
  Uint16 (b0 :: b1 :: rest) = Z_of_byte b0 * 256 + Z_of_byte b1.
Proof.
  pose proof (Z_of_byte_range b0) as R0.
  pose proof (Z_of_byte_range b1) as R1.
  set (v := Z_of_byte b0 * 256 + Z_of_byte b1).
  assert (H0 : byte_of_Z (Z.shiftr v 8) = b0).
  { rewrite Z.shiftr_div_pow2 by lia. change (2 ^ 8) with 256.
    replace (v / 256) with (Z_of_byte b0)
      by (unfold v; Z.to_euclidean_division_equations; lia).
    apply byte_of_Z_of_byte. }
  assert (H1 : byte_of_Z v = b1).
  { rewrite <- byte_of_Z_mod.
    replace (v mod 256) with (Z_of_byte b1)
      by (unfold v; Z.to_euclidean_division_equations; lia).
    apply byte_of_Z_of_byte. }
  rewrite <- H0 at 1. rewrite <- H1 at 1.
  rewrite Uint16_bytes. apply Z.mod_small. unfold v. lia.
Qed.

(** X1: the frame built by [addPrefix] is two bytes longer than the
    payload and carries the payload unchanged after the prefix; the prefix
    is the payload length modulo 65536, so it is the true length only for
    payloads of at most 65535 bytes. *)
Theorem addPrefix_layout (p : list byte) :
  len (addPrefix p) = len p + 2
  /\ skipn 2 (addPrefix p) = p
  /\ Uint16 (firstn 2 (addPrefix p)) = len p mod 65536.
Proof.
  split; [|split].
  - unfold len. rewrite addPrefix_length. lia.
  - now rewrite addPrefix_cons.
  - rewrite <- (app_nil_r (addPrefix p)). apply Uint16_addPrefix.
Qed.

(** X2: every read that passes the two checks of the handler is a frame
    that [addPrefix] builds: the [n] bytes read are [addPrefix] of the
    [n - 2] bytes that follow the prefix, and [n] is at least 17. *)
Theorem accepted_frame_is_addPrefix (b data : list byte) (n : Z)
        (b' : list byte) :
  readFrame b data = FrameOk n b' ->
  minDNSPacketSize <= n
  /\ firstn (Z.to_nat n) b'
     = addPrefix (skipn 2 (firstn (Z.to_nat n) b')).
Proof.
  unfold readFrame, stream_Read.
  set (k := Nat.min (List.length data) (List.length b)).
  destruct (Z.ltb_spec (Z.of_nat k) minDNSPacketSize) as [|Hk]; [discriminate|].
  destruct (Z.eqb_spec (Uint16 (firstn 2 (firstn k data ++ skipn k b)))
                       (Z.of_nat k - 2)) as [HU|]; [|discriminate].
  cbn [negb]. intros [= <- <-]. split; [exact Hk|].
  rewrite Nat2Z.id.
  assert (Hlen : List.length (firstn k data) = k)
    by (rewrite length_firstn; unfold k; lia).
  rewrite firstn_app, Hlen, Nat.sub_diag.
  cbn [firstn]. rewrite app_nil_r.
  rewrite firstn_firstn, Nat.min_id.
  unfold minDNSPacketSize in Hk.
  destruct (firstn k data) as [|b0 [|b1 payload]] eqn:E;
    cbn [List.length] in Hlen; try lia.
  cbn [app firstn] in HU. rewrite Uint16_value in HU.
  rewrite addPrefix_cons. cbn [skipn].
  assert (HL : len payload = Z_of_byte b0 * 256 + Z_of_byte b1)
    by (unfold len; lia).
  pose proof (Z_of_byte_range b0). pose proof (Z_of_byte_range b1).
  unfold uint16. rewrite (Z.mod_small (len payload)) by lia.
  rewrite HL. f_equal; [|f_equal].
  - rewrite Z.shiftr_div_pow2 by lia. change (2 ^ 8) with 256.
    replace ((Z_of_byte b0 * 256 + Z_of_byte b1) / 256) with (Z_of_byte b0)
      by (Z.to_euclidean_division_equations; lia).
    symmetry. apply byte_of_Z_of_byte.
  - rewrite <- byte_of_Z_mod.
    replace ((Z_of_byte b0 * 256 + Z_of_byte b1) mod 256) with (Z_of_byte b1)
      by (Z.to_euclidean_division_equations; lia).
    symmetry. apply byte_of_Z_of_byte.
Qed.

Lemma accepted_frame_is_addPrefix_witness :
  minDNSPacketSize <= len keepaliveQueryBytes + 2
  /\ firstn (Z.to_nat (len keepaliveQueryBytes + 2))
            (addPrefix keepaliveQueryBytes
               ++ skipn (List.length keepaliveQueryBytes + 2) (make MaxMsgSize))
     = addPrefix
         (skipn 2
            (firstn (Z.to_nat (len keepaliveQueryBytes + 2))
                    (addPrefix keepaliveQueryBytes
                       ++ skipn (List.length keepaliveQueryBytes + 2)
                                (make MaxMsgSize)))).
Proof.
  apply (accepted_frame_is_addPrefix
           (make MaxMsgSize) (addPrefix keepaliveQueryBytes)).
  apply readFrame_addPrefix.
  - vm_compute. discriminate.
  - rewrite make_len by (vm_compute; discriminate). vm_compute. discriminate.
  - rewrite make_len by (vm_compute; discriminate). vm_compute. discriminate.
Defined.

Section HandlerMore.

Variable Unpack : list byte -> Msg + error.
Variable Pack : Msg -> list byte.
Variable ServeDNS : Msg -> option Msg.
Variable stream_Write : list byte -> Z * option error.

Abbreviation handle' := (handleQUICStream Unpack Pack ServeDNS stream_Write).

Lemma keepaliveCheck_only_closes (msg : Msg) (e : Event) :
  In e (keepaliveCheck msg) -> e = SessionCloseWithError.
Proof.
  unfold keepaliveCheck. destruct (IsEdns0 msg) as [opts|]; [|intros []].
  intros H. apply in_flat_map in H. destruct H as (code & _ & H).
  destruct (code =? EDNS0TCPKEEPALIVE); [|destruct H].
  destruct H as [<-|[]]. reflexivity.
Qed.

Lemma keepaliveCheck_needs_option (msg : Msg) :
  In SessionCloseWithError (keepaliveCheck msg) ->
  exists opts, IsEdns0 msg = Some opts /\ In EDNS0TCPKEEPALIVE opts.
Proof.
  unfold keepaliveCheck. destruct (IsEdns0 msg) as [opts|]; [|intros []].
  intros H. apply in_flat_map in H. destruct H as (code & HI & H).
  exists opts. split; [reflexivity|].
  destruct (Z.eqb_spec code EDNS0TCPKEEPALIVE) as [<-|]; [exact HI|destruct H].
Qed.

(** The events of the handler once a message is decoded. *)
Lemma handle_decoded (k : ServerKind) (b data : list byte) (n : Z)
      (b' : list byte) (msg : Msg) :
  readFrame b data = FrameOk n b' ->
  Unpack (skipn 2 b') = inl msg ->
  fst (handle' k b data)
  = keepaliveCheck msg ++ ChainServeDNS msg
      :: match ServeDNS msg with
         | None => [Print "message was nil -> stream closed!"; StreamClose]
         | Some response => fst (writeResponse stream_Write k (Pack response))
         end.
Proof.
  intros HF HU. unfold handleQUICStream. rewrite HF, HU.
  destruct (ServeDNS msg) as [response|].
  - destruct (writeResponse stream_Write k (Pack response)) as [ev out].
    cbn [fst]. now rewrite <- app_assoc.
  - cbn [fst]. now rewrite <- app_assoc.
Qed.

(** X3: the handler calls [session.CloseWithError] only for a decoded
    message whose OPT record carries the edns-tcp-keepalive option: a short
    read, a prefix mismatch, an undecodable message, an absent response
    and a failed write never close the session. *)
Theorem session_closed_only_for_keepalive (k : ServerKind)
        (b data : list byte) :
  In SessionCloseWithError (fst (handle' k b data)) ->
  exists n b' msg opts,
    readFrame b data = FrameOk n b'
    /\ Unpack (skipn 2 b') = inl msg
    /\ IsEdns0 msg = Some opts
    /\ In EDNS0TCPKEEPALIVE opts.
Proof.
  destruct (readFrame b data) as [| |n b'] eqn:HF;
    try (unfold handleQUICStream; rewrite HF; intros []).
  destruct (Unpack (skipn 2 b')) as [msg|e] eqn:HU.
  - rewrite (handle_decoded k b data n b' msg HF HU).
    intros H. apply in_app_or in H. destruct H as [H|H].
    + destruct (keepaliveCheck_needs_option msg H) as (opts & HE & HI).
      now exists n, b', msg, opts.
    + exfalso. destruct H as [H|H]; [discriminate|].
      destruct (ServeDNS msg) as [response|].
      * exact (writeResponse_no_session_close
                 Unpack Pack ServeDNS stream_Write k _ H).
      * cbn in H. intuition discriminate.
  - unfold handleQUICStream. rewrite HF, HU. cbn.
    intuition discriminate.
Qed.

Lemma writeResponse_events (k : ServerKind) (buf : list byte) (e : Event) :
  In e (fst (writeResponse stream_Write k buf)) ->
  e = StreamWrite (addPrefix buf)
  \/ (exists line, e = Print line) \/ (exists err, e = PrintError err).
Proof.
  unfold writeResponse.
  destruct (stream_Write (addPrefix buf)) as [cnt [err|]];
    destruct k; cbn [fst];
    try destruct (negb (cnt =? len buf)); try destruct (is_net_Error err);
    cbn; intuition (subst; eauto).
Qed.

(** X4: whatever the handler writes to the stream is the frame
    [addPrefix (Pack response)] of the response the chain produced for the
    decoded query, and the write comes after the call of the chain; the
    chain is called with the decoded message only. *)
Theorem written_frame_is_chain_response (k : ServerKind)
        (b data p : list byte) :
  In (StreamWrite p) (fst (handle' k b data)) ->
  exists n b' msg response before after,
    readFrame b data = FrameOk n b'
    /\ Unpack (skipn 2 b') = inl msg
    /\ ServeDNS msg = Some response
    /\ p = addPrefix (Pack response)
    /\ fst (handle' k b data) = before ++ ChainServeDNS msg :: after
    /\ In (StreamWrite p) after
    /\ (forall q, In (ChainServeDNS q) (before ++ after) -> False).
Proof.
  destruct (readFrame b data) as [| |n b'] eqn:HF;
    try (unfold handleQUICStream; rewrite HF; intros []).
  destruct (Unpack (skipn 2 b')) as [msg|e] eqn:HU.
  - rewrite (handle_decoded k b data n b' msg HF HU).
    intros H. apply in_app_or in H. destruct H as [H|H].
    { apply keepaliveCheck_only_closes in H. discriminate. }
    destruct H as [H|H]; [discriminate|].
    destruct (ServeDNS msg) as [response|] eqn:HS.
    + destruct (writeResponse_events k _ _ H) as [E|[[l E]|[x E]]];
        try discriminate.
      injection E as ->.
      exists n, b', msg, response, (keepaliveCheck msg),
        (fst (writeResponse stream_Write k (Pack response))).
      repeat split; try reflexivity; try assumption.
      intros q Hq. apply in_app_or in Hq. destruct Hq as [Hq|Hq].
      * apply keepaliveCheck_only_closes in Hq. discriminate.
      * destruct (writeResponse_events k _ _ Hq) as [E|[[l E]|[x E]]];
          discriminate.
    + cbn in H. intuition discriminate.
  - unfold handleQUICStream. rewrite HF, HU. cbn.
    intuition discriminate.
Qed.

End HandlerMore.

Lemma session_closed_only_for_keepalive_witness :
  exists n b' msg opts,
    readFrame (make MaxMsgSize) (addPrefix keepaliveQueryBytes) = FrameOk n b'
    /\ sampleUnpack (skipn 2 b') = inl msg
    /\ IsEdns0 msg = Some opts
    /\ In EDNS0TCPKEEPALIVE opts.
Proof.
  apply (session_closed_only_for_keepalive
           sampleUnpack samplePack sampleServeDNS sampleWrite QUIC).
  vm_compute. left. reflexivity.
Defined.

Lemma written_frame_is_chain_response_witness :
  exists n b' msg response before after,
    readFrame (make MaxMsgSize) (addPrefix plainQueryBytes) = FrameOk n b'
    /\ sampleUnpack (skipn 2 b') = inl msg
    /\ sampleServeDNS msg = Some response
    /\ addPrefix (samplePack plainQuery) = addPrefix (samplePack response)
    /\ fst (handleQUICStream sampleUnpack samplePack sampleServeDNS
              sampleWrite SQUIC (make MaxMsgSize) (addPrefix plainQueryBytes))
       = before ++ ChainServeDNS msg :: after
    /\ In (StreamWrite (addPrefix (samplePack plainQuery))) after
    /\ (forall q, In (ChainServeDNS q) (before ++ after) -> False).
Proof.
  apply (written_frame_is_chain_response
           sampleUnpack samplePack sampleServeDNS sampleWrite SQUIC).
  vm_compute. right. left. reflexivity.
Defined.

(* ================================================================== *)
(** * Further properties of the proxy *)

(** X5: with 0 <= floor <= ceiling the dial timeout lies between the floor
    and the ceiling, whatever the running average is. *)
Theorem limitTimeout_within_bounds (avg floor ceiling : Z) :
  0 <= floor <= ceiling -> ceiling < 2 ^ 63 ->
  floor <= limitTimeout avg floor ceiling <= ceiling.
Proof.
  intros Hf Hc. unfold limitTimeout.
  destruct (Z.ltb_spec avg floor); [lia|].
  destruct (Z.ltb_spec avg (Z.quot ceiling 2)) as [Hq|]; [|lia].
  assert (2 * avg < ceiling) by (Z.to_euclidean_division_equations; lia).
  rewrite wrap64_small by lia. lia.
Qed.

Lemma limitTimeout_within_bounds_witness :
  sampleMinDialTimeout
  <= limitTimeout 1000000 sampleMinDialTimeout sampleMaxDialTimeout
  <= sampleMaxDialTimeout.
Proof.
  apply limitTimeout_within_bounds; vm_compute.
  - split; discriminate.
  - reflexivity.
Defined.

Section ConnectMore.

Variables minDialTimeout maxDialTimeout : Z.
Variable ParseUDPAddr_ok : string -> bool.
Variable url_Parse : string -> option URL.
Variable Proxy_Addr : Proxy -> string.

Abbreviation connect' :=
  (Connect minDialTimeout maxDialTimeout ParseUDPAddr_ok url_Parse Proxy_Addr).
Abbreviation select' := (selectProto ParseUDPAddr_ok url_Parse Proxy_Addr).
Abbreviation dial' := (Dial minDialTimeout maxDialTimeout).

(** How the read loop ends: after [k] reads it yields the connection and
    returns a message with the original ID and a nil error, or it closes
    the connection and returns an error - over "udp" always a
    [net.Error]. *)
Lemma readLoop_shape (proto : string) (cached : bool) (sent originId : Z)
      (rs : list ReadResult) :
  forall (acc : list ProxyEvent) (r : option Msg) (e : option error)
         (ev : list ProxyEvent),
    readLoop proto cached sent originId rs acc = Some (r, e, ev) ->
    exists k : nat,
      (0 < k <= List.length rs)%nat
      /\ ((e = None
           /\ (exists m, r = Some (set_Id m originId)
                         /\ Id m = sent /\ In (ReadOk m) rs)
           /\ ev = acc ++ repeat ReadMsg k ++ [Yield])
          \/ (exists x, e = Some x
                /\ (proto = "udp" -> is_net_Error x = true)
                /\ ev = acc ++ repeat ReadMsg k ++ [ConnClose])).
Proof.
  induction rs as [|a rs IH]; intros acc r e ev; cbn [readLoop].
  - discriminate.
  - assert (Step : readLoop proto cached sent originId rs (acc ++ [ReadMsg])
                   = Some (r, e, ev) ->
                   exists k : nat,
                     (0 < k <= List.length (a :: rs))%nat
                     /\ ((e = None
                          /\ (exists m, r = Some (set_Id m originId)
                                /\ Id m = sent /\ In (ReadOk m) (a :: rs))
                          /\ ev = acc ++ repeat ReadMsg k ++ [Yield])
                         \/ (exists x, e = Some x
                               /\ (proto = "udp" -> is_net_Error x = true)
                               /\ ev = acc ++ repeat ReadMsg k ++ [ConnClose]))).
    { intros H. destruct (IH _ _ _ _ H) as (k & Hk & HC).
      exists (S k). split; [cbn [List.length]; lia|].
      cbn [repeat app].
      destruct HC as [(He & (m & Hr & Hm & Hin) & Hev)|(x & He & Hu & Hev)].
      - left. split; [exact He|]. split.
        + exists m. repeat split; try assumption. now right.
        + rewrite Hev, <- app_assoc. reflexivity.
      - right. exists x. repeat split; try assumption.
        rewrite Hev, <- app_assoc. reflexivity. }
    destruct a as [m|m x].
    + destruct (Z.eqb_spec sent (Id m)) as [E|_]; [|exact Step].
      intros [= <- <- <-]. exists 1%nat. split; [cbn; lia|].
      left. split; [reflexivity|]. split.
      * exists m. repeat split; [now symmetry|now left].
      * reflexivity.
    + destruct ((proto =? "udp")%string && negb (is_net_Error x)) eqn:HU;
        [exact Step|].
      assert (Hnet : proto = "udp" -> is_net_Error x = true).
      { intros ->. cbn in HU. now destruct (is_net_Error x). }
      exists 1%nat. split; [cbn; lia|]. right.
      destruct (is_EOF x && cached) eqn:HE.
      * injection H as <- <- <-.
        exists ErrCachedClosed. split; [reflexivity|]. split; [|reflexivity].
        intros Hp. specialize (Hnet Hp).
        destruct x; cbn in *; discriminate.
      * injection H as <- <- <-.
        exists x. repeat split; assumption.
Qed.

(** The three ways [Connect] returns, with its trace. *)
Lemma Connect_shape (p : Proxy) (u : Upstream) (state : Request)
      (opts : Options) (r : Connected) :
  connect' p u state opts = Some r ->
  exists proto ev0 t cached de ev1,
    select' p state opts = (proto, ev0)
    /\ dial' (transport p) u proto = (t, cached, de, ev1)
    /\ ((exists x, de = Some x /\ ret r = None /\ err r = Some x
                   /\ trace r = ev0 ++ ev1)
        \/ (de = None
            /\ exists size q tail,
                size = (if uint16 (Size state) <? 512
                        then 512 else uint16 (Size state))
                /\ q = set_Id (Req state) (freshId u)
                /\ trace r
                   = ev0 ++ ev1
                       ++ [SetUDPSize size; SetWriteDeadline; WriteMsg q]
                       ++ tail
                /\ ((exists we, writeResult u = Some we
                       /\ ret r = None /\ err r <> None
                       /\ tail = [ConnClose])
                    \/ (writeResult u = None
                        /\ exists k : nat,
                            (0 < k <= List.length (reads u))%nat
                            /\ ((err r = None
                                 /\ (exists m, ret r
                                               = Some (set_Id m (Id (Req state)))
                                       /\ Id m = freshId u
                                       /\ In (ReadOk m) (reads u))
                                 /\ tail = SetReadDeadline
                                             :: repeat ReadMsg k ++ [Yield])
                                \/ (exists x, err r = Some x
                                      /\ (proto = "udp"
                                          -> is_net_Error x = true)
                                      /\ tail = SetReadDeadline
                                                  :: repeat ReadMsg k
                                                  ++ [ConnClose])))))).
Proof.
  unfold Connect.
  destruct (select' p state opts) as [proto ev0] eqn:HS.
  destruct (dial' (transport p) u proto) as [[[t cached] de] ev1] eqn:HD.
  intros H. exists proto, ev0, t, cached, de, ev1.
  split; [reflexivity|]. split; [exact HD|].
  destruct de as [x|].
  { left. injection H as <-. exists x. repeat split. }
  right. split; [reflexivity|].
  set (size := if uint16 (Size state) <? 512
               then 512 else uint16 (Size state)) in *.
  set (q := set_Id (Req state) (freshId u)) in *.
  destruct (writeResult u) as [we|].
  { injection H as <-. cbn [trace ret err].
    exists size, q, [ConnClose].
    split; [reflexivity|]. split; [reflexivity|]. split.
    - rewrite <- !app_assoc. reflexivity.
    - left. exists we. repeat split. discriminate. }
  destruct (readLoop _ _ _ _ _ _) as [[[r0 e0] ev]|] eqn:HL; [|discriminate].
  injection H as <-. cbn [trace ret err].
  destruct (readLoop_shape _ _ _ _ _ _ _ _ _ HL) as (k & Hk & HC).
  cbn [Id set_Id q] in HC.
  destruct HC as [(He & (m & Hr & Hm & Hin) & Hev)|(x & He & Hu & Hev)].
  - exists size, q, (SetReadDeadline :: repeat ReadMsg k ++ [Yield]).
    split; [reflexivity|]. split; [reflexivity|]. split.
    + rewrite Hev, <- !app_assoc. reflexivity.
    + right. split; [reflexivity|]. exists k. split; [exact Hk|].
      left. split; [exact He|]. split; [|reflexivity].
      exists m. repeat split; assumption.
  - exists size, q, (SetReadDeadline :: repeat ReadMsg k ++ [ConnClose]).
    split; [reflexivity|]. split; [reflexivity|]. split.
    + rewrite Hev, <- !app_assoc. reflexivity.
    + right. split; [reflexivity|]. exists k. split; [exact Hk|].
      right. exists x. repeat split; assumption.
Qed.

Lemma setup_events (p : Proxy) (u : Upstream) (state : Request)
      (opts : Options) (proto : string) (ev0 ev1 : list ProxyEvent)
      (t : Transport) (cached : bool) (de : option error) (x : ProxyEvent) :
  select' p state opts = (proto, ev0) ->
  dial' (transport p) u proto = (t, cached, de, ev1) ->
  In x ev0 \/ In x ev1 ->
  (exists line, x = Printf line) \/ (exists pr d, x = DialFresh pr d).
Proof.
  intros HS HD [H|H].
  - left. pose proof (selectProto_trace ParseUDPAddr_ok url_Parse Proxy_Addr
                        p state opts x) as HT.
    rewrite HS in HT. exact (HT H).
  - right. exact (Dial_trace minDialTimeout maxDialTimeout
                    _ _ _ _ _ _ _ x HD H).
Qed.

(** X6: a connection is yielded exactly when [Connect] succeeds and
    closed exactly when it fails after the dial: a nil error comes with a
    message, a [Yield] and no [Close]; an error never comes with a
    [Yield]; a [Close] happens exactly when the request was written and
    an error is returned. *)
Theorem Connect_yields_iff_success (p : Proxy) (u : Upstream)
        (state : Request) (opts : Options) (r : Connected) :
  connect' p u state opts = Some r ->
  (err r = None <-> In Yield (trace r))
  /\ (err r = None -> ret r <> None /\ ~ In ConnClose (trace r))
  /\ (In ConnClose (trace r)
      <-> err r <> None /\ exists q, In (WriteMsg q) (trace r)).
Proof.
  intros HC.
  destruct (Connect_shape p u state opts r HC)
    as (proto & ev0 & t & cached & de & ev1 & HS & HD & Sh).
  assert (Pre : forall x, In x ev0 \/ In x ev1 ->
                          x <> Yield /\ x <> ConnClose
                          /\ forall q, x <> WriteMsg q).
  { intros x Hx.
    destruct (setup_events p u state opts proto ev0 ev1 t cached de x HS HD Hx)
      as [[l ->]|(pr & d & ->)]; repeat split; try discriminate. }
  assert (Rep : forall (k : nat) x, In x (repeat ReadMsg k) -> x = ReadMsg)
    by (intros k x Hx; now apply repeat_spec in Hx).
  assert (NoRep : forall (k : nat) x, x <> ReadMsg ->
                                      ~ In x (repeat ReadMsg k)).
  { intros k x N Hx. apply Rep in Hx. contradiction. }
  destruct Sh as [(x & -> & Hr & He & Ht)
                 |(-> & size & q & tail & _ & _ & Ht & Tl)].
  - assert (NY : ~ In Yield (trace r)).
    { rewrite Ht. intros H. apply in_app_or in H.
      destruct (Pre Yield H) as (A & _). congruence. }
    assert (NC : ~ In ConnClose (trace r)).
    { rewrite Ht. intros H. apply in_app_or in H.
      destruct (Pre ConnClose H) as (_ & A & _). congruence. }
    split; [|split].
    + split; [congruence|contradiction].
    + congruence.
    + split; [contradiction|]. intros [_ (q & H)].
      rewrite Ht in H. apply in_app_or in H.
      destruct (Pre (WriteMsg q) H) as (_ & _ & A). now destruct (A q).
  - assert (HW : In (WriteMsg q) (trace r)).
    { rewrite Ht. apply in_or_app. right. apply in_or_app. right.
      cbn. auto. }
    assert (Mem : forall x, x = Yield \/ x = ConnClose ->
                            In x (trace r) <-> In x tail).
    { intros x Hx. rewrite Ht. split.
      - intros H. apply in_app_or in H. destruct H as [H|H].
        { destruct (Pre x (or_introl H)) as (A & B & _).
          destruct Hx; contradiction. }
        apply in_app_or in H. destruct H as [H|H].
        { destruct (Pre x (or_intror H)) as (A & B & _).
          destruct Hx; contradiction. }
        apply in_app_or in H. destruct H as [H|H]; [|exact H].
        cbn in H. destruct Hx; subst x; intuition discriminate.
      - intros H. apply in_or_app. right. apply in_or_app. right.
        apply in_or_app. now right. }
    pose proof (Mem Yield (or_introl eq_refl)) as MY.
    pose proof (Mem ConnClose (or_intror eq_refl)) as MC.
    destruct Tl as [(we & _ & Hr & He & ->)
                   |(_ & k & Hk & [(He & (m & Hr & _) & ->)
                                  |(x & He & _ & ->)])].
    + split; [|split].
      * split; [congruence|]. intros H. apply MY in H.
        cbn in H. intuition discriminate.
      * congruence.
      * split.
        -- intros _. split; [exact He|now exists q].
        -- intros _. apply MC. now left.
    + assert (NC : ~ In ConnClose (trace r)).
      { intros H. apply MC in H. destruct H as [H|H]; [discriminate|].
        apply in_app_or in H. destruct H as [H|H].
        - revert H. apply NoRep. discriminate.
        - cbn in H. intuition discriminate. }
      split; [|split].
      * split; [|intros _; exact He]. intros _. apply MY. right.
        apply in_or_app. right. now left.
      * intros _. split; [congruence|exact NC].
      * split; [contradiction|]. intros [A _]. congruence.
    + assert (NY : ~ In Yield (trace r)).
      { intros H. apply MY in H. destruct H as [H|H]; [discriminate|].
        apply in_app_or in H. destruct H as [H|H].
        - revert H. apply NoRep. discriminate.
        - cbn in H. intuition discriminate. }
      split; [|split].
      * split; [congruence|contradiction].
      * congruence.
      * split.
        -- intros _. split; [congruence|now exists q].
        -- intros _. apply MC. right. apply in_or_app. right. now left.
Qed.

(** X7: the only message [Connect] writes upstream is the client's
    request with its ID replaced by the freshly drawn one, and the
    receive-buffer size it sets is the client's size as a [uint16],
    raised to 512 when smaller: never below 512, never above 65535. *)
Theorem Connect_upstream_request (p : Proxy) (u : Upstream)
        (state : Request) (opts : Options) (r : Connected) :
  connect' p u state opts = Some r ->
  (forall q, In (WriteMsg q) (trace r) ->
             q = set_Id (Req state) (freshId u))
  /\ (forall size, In (SetUDPSize size) (trace r) ->
                   size = Z.max 512 (Size state mod 65536)
                   /\ 512 <= size <= 65535).
Proof.
  intros HC.
  destruct (Connect_shape p u state opts r HC)
    as (proto & ev0 & t & cached & de & ev1 & HS & HD & Sh).
  assert (Pre : forall x, In x ev0 \/ In x ev1 ->
                          (forall q, x <> WriteMsg q)
                          /\ forall z, x <> SetUDPSize z).
  { intros x Hx.
    destruct (setup_events p u state opts proto ev0 ev1 t cached de x HS HD Hx)
      as [[l ->]|(pr & d & ->)]; split; discriminate. }
  assert (Rep : forall (k : nat) x, In x (repeat ReadMsg k) -> x = ReadMsg)
    by (intros k x Hx; now apply repeat_spec in Hx).
  assert (Size_ok : forall size,
             size = (if uint16 (Size state) <? 512
                     then 512 else uint16 (Size state)) ->
             size = Z.max 512 (Size state mod 65536)
             /\ 512 <= size <= 65535).
  { intros size ->. unfold uint16.
    pose proof (Z.mod_pos_bound (Size state) 65536 eq_refl).
    destruct (Z.ltb_spec (Size state mod 65536) 512); lia. }
  destruct Sh as [(x & -> & Hr & He & Ht)
                 |(-> & size & q & tail & Hsz & Hq & Ht & Tl)].
  - rewrite Ht. split; intros y H; apply in_app_or in H;
      destruct (Pre _ H) as (A & B); [now destruct (A y)|now destruct (B y)].
  - assert (TailOK : forall x, In x tail ->
                               (forall y, x <> WriteMsg y)
                               /\ forall z, x <> SetUDPSize z).
    { intros x Hx.
      destruct Tl as [(we & _ & _ & _ & ->)
                     |(_ & k & _ & [(_ & _ & ->)|(e & _ & _ & ->)])].
      - destruct Hx as [<-|[]]. split; discriminate.
      - destruct Hx as [<-|Hx]; [split; discriminate|].
        apply in_app_or in Hx. destruct Hx as [Hx|[<-|[]]];
          [apply Rep in Hx; subst x|]; split; discriminate.
      - destruct Hx as [<-|Hx]; [split; discriminate|].
        apply in_app_or in Hx. destruct Hx as [Hx|[<-|[]]];
          [apply Rep in Hx; subst x|]; split; discriminate. }
    rewrite Ht. split; intros y H.
    + apply in_app_or in H. destruct H as [H|H].
      { destruct (Pre _ (or_introl H)) as (A & _). now destruct (A y). }
      apply in_app_or in H. destruct H as [H|H].
      { destruct (Pre _ (or_intror H)) as (A & _). now destruct (A y). }
      apply in_app_or in H. destruct H as [H|H].
      * cbn in H. destruct H as [H|[H|[H|[]]]]; try discriminate.
        injection H as <-. exact Hq.
      * destruct (TailOK _ H) as (A & _). now destruct (A y).
    + apply in_app_or in H. destruct H as [H|H].
      { destruct (Pre _ (or_introl H)) as (_ & B). now destruct (B y). }
      apply in_app_or in H. destruct H as [H|H].
      { destruct (Pre _ (or_intror H)) as (_ & B). now destruct (B y). }
      apply in_app_or in H. destruct H as [H|H].
      * cbn in H. destruct H as [H|[H|[H|[]]]]; try discriminate.
        injection H as <-. apply Size_ok. exact Hsz.
      * destruct (TailOK _ H) as (_ & B). now destruct (B y).
Qed.

(** X8: over the protocol "udp", once the request is written, [Connect]
    returns an error only for a [net.Error] (a time-out, for one): a
    malformed or spoofed datagram, or any other error that is not a
    [net.Error], never ends the exchange. *)
Theorem Connect_udp_fails_only_on_net_Error (p : Proxy) (u : Upstream)
        (state : Request) (opts : Options) (r : Connected) (x : error) :
  fst (select' p state opts) = "udp" ->
  writeResult u = None ->
  snd (fst (dial' (transport p) u "udp")) = None ->
  connect' p u state opts = Some r ->
  err r = Some x ->
  is_net_Error x = true.
Proof.
  intros HP HW HD0 HC HE.
  destruct (Connect_shape p u state opts r HC)
    as (proto & ev0 & t & cached & de & ev1 & HS & HD & Sh).
  rewrite HS in HP. cbn in HP. subst proto.
  rewrite HD in HD0. cbn in HD0. subst de.
  destruct Sh as [(y & Hy & _)|(_ & size & q & tail & _ & _ & _ & Tl)];
    [discriminate|].
  destruct Tl as [(we & Hwe & _)
                 |(_ & k & _ & [(He & _)|(y & He & Hn & _)])].
  - congruence.
  - congruence.
  - rewrite He in HE. injection HE as <-. now apply Hn.
Qed.

(** X9: for an upstream address that is not a SCION address the
    protocol handed to [Dial] depends on the address alone: the options
    [ForceTCP] and [PreferUDP] and the client's protocol have no effect.
    For a SCION address they decide, [ForceTCP] first. *)
Theorem selectProto_ignores_options_off_SCION (p : Proxy)
        (state state' : Request) (opts opts' : Options) :
  (ParseUDPAddr_ok (Proxy_Addr p) = false ->
   fst (select' p state opts) = fst (select' p state' opts'))
  /\ (ParseUDPAddr_ok (Proxy_Addr p) = true ->
      fst (select' p state opts)
      = if ForceTCP opts then "tcp"
        else if PreferUDP opts then "udp" else Proto state).
Proof.
  rewrite !selectProto_cases.
  split; intros ->; reflexivity.
Qed.

Lemma readLoop_returns_on_match (proto : string) (cached : bool)
      (sent originId : Z) (m : Msg) (rs : list ReadResult) :
  In (ReadOk m) rs -> Id m = sent ->
  forall acc, readLoop proto cached sent originId rs acc <> None.
Proof.
  intros HI HM. induction rs as [|a rs IH]; [destruct HI|].
  intros acc. cbn [readLoop].
  destruct a as [m'|m' e].
  - destruct (Z.eqb_spec sent (Id m')) as [_|N]; [discriminate|].
    destruct HI as [[= ->]|HI]; [congruence|]. now apply IH.
  - destruct HI as [HI|HI]; [discriminate|].
    destruct ((proto =? "udp")%string && negb (is_net_Error e));
      [now apply IH|].
    destruct (is_EOF e && cached); discriminate.
Qed.

(** X10: when a reply with the ID sent upstream is among the results of
    the reads, [Connect] returns: nothing that precedes the reply - replies
    with other IDs, errors passed over on "udp" - can keep it waiting. *)
Theorem Connect_returns_when_reply_arrives (p : Proxy) (u : Upstream)
        (state : Request) (opts : Options) (m : Msg) :
  In (ReadOk m) (reads u) -> Id m = freshId u ->
  exists r, connect' p u state opts = Some r.
Proof.
  intros HI HM. unfold Connect.
  destruct (select' p state opts) as [proto ev0].
  destruct (dial' (transport p) u proto) as [[[t cached] de] ev1].
  destruct de as [x|]; [eexists; reflexivity|].
  destruct (writeResult u) as [we|]; [eexists; reflexivity|].
  cbn [Id set_Id].
  pose proof (readLoop_returns_on_match proto cached (freshId u)
                (Id (Req state)) m (reads u) HI HM) as HN.
  match goal with
  | |- context [readLoop ?a ?b ?c ?d ?e ?f] =>
      specialize (HN f); destruct (readLoop a b c d e f) as [[[r0 e0] ev]|]
  end; [eexists; reflexivity|congruence].
Qed.

End ConnectMore.

Lemma Connect_yields_iff_success_witness :
  exists r,
    sampleConnect "tcp://8.8.8.8:53"
      (sampleUpstream false None [ReadOk (reply 9); ReadOk (reply 4242)])
    = Some r
    /\ (err r = None <-> In Yield (trace r))
    /\ (err r = None -> ret r <> None /\ ~ In ConnClose (trace r))
    /\ (In ConnClose (trace r)
        <-> err r <> None /\ exists q, In (WriteMsg q) (trace r)).
Proof.
  eexists. split.
  - vm_compute. reflexivity.
  - apply (Connect_yields_iff_success
             sampleMinDialTimeout sampleMaxDialTimeout
             sampleParseUDPAddr_ok sampleUrlParse addr
             (sampleProxy "tcp://8.8.8.8:53")
             (sampleUpstream false None [ReadOk (reply 9); ReadOk (reply 4242)])
             clientRequest noOptions).
    vm_compute. reflexivity.
Defined.

Lemma Connect_upstream_request_witness :
  exists r,
    sampleConnect "tcp://8.8.8.8:53"
      (sampleUpstream true None [ReadErr None (net_Error true "i/o timeout")])
    = Some r
    /\ (forall q, In (WriteMsg q) (trace r) ->
                  q = set_Id (Req clientRequest) 4242)
    /\ (forall size, In (SetUDPSize size) (trace r) ->
                     size = Z.max 512 (Size clientRequest mod 65536)
                     /\ 512 <= size <= 65535).
Proof.
  eexists. split.
  - vm_compute. reflexivity.
  - apply (Connect_upstream_request
             sampleMinDialTimeout sampleMaxDialTimeout
             sampleParseUDPAddr_ok sampleUrlParse addr
             (sampleProxy "tcp://8.8.8.8:53")
             (sampleUpstream true None
                [ReadErr None (net_Error true "i/o timeout")])
             clientRequest noOptions).
    vm_compute. reflexivity.
Defined.

Lemma Connect_udp_fails_only_on_net_Error_witness :
  is_net_Error (net_Error true "i/o timeout") = true.
Proof.
  apply (Connect_udp_fails_only_on_net_Error
           sampleMinDialTimeout sampleMaxDialTimeout
           sampleParseUDPAddr_ok sampleUrlParse addr
           (sampleProxy "8.8.8.8:53")
           (sampleUpstream false None
              [ReadErr (Some (reply 5)) (other_error "dns: bad rdata");
               ReadErr None io_EOF;
               ReadErr None (net_Error true "i/o timeout")])
           clientRequest noOptions
           {| ret := None;
              err := Some (net_Error true "i/o timeout");
              Req_after := Req clientRequest;
              transport_after :=
                updateDialTimeout (transport (sampleProxy "8.8.8.8:53"))
                                  20000000;
              trace := [DialFresh "udp" 30000000000; SetUDPSize 1232;
                        SetWriteDeadline; WriteMsg (reply 4242);
                        SetReadDeadline; ReadMsg; ReadMsg; ReadMsg;
                        ConnClose] |}).
  - reflexivity.
  - reflexivity.
  - reflexivity.
  - vm_compute. reflexivity.
  - reflexivity.
Defined.

Lemma Connect_returns_when_reply_arrives_witness :
  exists r,
    sampleConnect "8.8.8.8:53"
      (sampleUpstream true None
         [ReadErr None io_EOF; ReadOk (reply 3); ReadOk (reply 4242)])
    = Some r.
Proof.
  apply (Connect_returns_when_reply_arrives
           sampleMinDialTimeout sampleMaxDialTimeout
           sampleParseUDPAddr_ok sampleUrlParse addr
           (sampleProxy "8.8.8.8:53")
           (sampleUpstream true None
              [ReadErr None io_EOF; ReadOk (reply 3); ReadOk (reply 4242)])
           clientRequest noOptions (reply 4242)).
  - cbn. auto.
  - reflexivity.
Defined.

(* ================================================================== *)
(** * Properties of the secondary-zone serial check *)

(** X11: on two [uint32] serials, [less] is irreflexive, and of two
    different serials exactly one is less than the other. *)
Theorem less_total_asymmetric (a b : Z) :
  0 <= a < 2 ^ 32 -> 0 <= b < 2 ^ 32 ->
  less a a = false
  /\ (a <> b -> less a b = negb (less b a)).
Proof.
  intros Ha Hb. unfold less, uint32, MaxSerialIncrement. split.
  - rewrite Z.ltb_irrefl, Z.sub_diag. reflexivity.
  - intros N.
    destruct (Z.ltb_spec a b); destruct (Z.ltb_spec b a); lia.
Qed.

Lemma less_total_asymmetric_witness :
  less 4294967290 4294967290 = false
  /\ (4294967290 <> 5 -> less 4294967290 5 = negb (less 5 4294967290)).
Proof.
  apply less_total_asymmetric; (split; [discriminate|reflexivity]).
Defined.

(** X12: serial arithmetic wraps: a serial raised by 1 to
    [MaxSerialIncrement] steps, modulo 2^32, is newer than the serial it
    came from, and not the other way round. *)
Theorem less_after_increment (a k : Z) :
  0 <= a < 2 ^ 32 -> 1 <= k <= MaxSerialIncrement ->
  less a (uint32 (a + k)) = true
  /\ less (uint32 (a + k)) a = false.
Proof.
  unfold less, uint32, MaxSerialIncrement. intros Ha Hk.
  change (2 ^ 32) with 4294967296 in *.
  destruct (Z.lt_ge_cases (a + k) 4294967296) as [S|L].
  - rewrite (Z.mod_small (a + k)) by lia.
    destruct (Z.ltb_spec a (a + k)); [|lia].
    destruct (Z.ltb_spec (a + k) a); [lia|].
    replace (a + k - a) with k by lia.
    rewrite Z.mod_small by lia.
    split; [apply Z.leb_le|apply Z.ltb_ge]; lia.
  - replace ((a + k) mod 4294967296) with (a + k - 4294967296)
      by (Z.to_euclidean_division_equations; lia).
    destruct (Z.ltb_spec a (a + k - 4294967296)); [lia|].
    destruct (Z.ltb_spec (a + k - 4294967296) a); [|lia].
    replace (a - (a + k - 4294967296)) with (4294967296 - k) by lia.
    rewrite Z.mod_small by lia.
    split; [apply Z.ltb_lt|apply Z.leb_gt]; lia.
Qed.

Lemma less_after_increment_witness :
  less 4294967290 (uint32 (4294967290 + 10)) = true
  /\ less (uint32 (4294967290 + 10)) 4294967290 = false.
Proof.
  apply less_after_increment.
  - split; [discriminate|reflexivity].
  - split; discriminate.
Defined.

Section ShouldTransferFacts.

Variable IsSCIONAddress : string -> bool.
Variable Exchange : string -> string -> Exchanged.

Abbreviation netOf tr := (if IsSCIONAddress tr then "squic" else "tcp").

Lemma firstSOA_range (answer : list AnswerRR) (serial : Z) :
  firstSOA answer = Some serial -> 0 <= serial < 2 ^ 32.
Proof.
  induction answer as [|[s|t] rest IH]; cbn; try discriminate; auto.
  intros [= <-]. apply Z.mod_pos_bound. lia.
Qed.

(** The loop ends with a serial only for a primary that answered
    NOERROR with an SOA record, and then with a nil [Err]; it ends with an
    error only when the last primary asked failed. *)
Lemma transferLoop_result (from : list string) :
  forall (Err : option error) (serial : Z) (E : option error),
    transferLoop IsSCIONAddress Exchange from Err = (serial, E) ->
    (serial <> -1 ->
       E = None
       /\ exists tr answer,
           In tr from
           /\ Exchange (netOf tr) tr = ExchangeOk RcodeSuccess answer
           /\ firstSOA answer = Some serial)
    /\ (forall e, E = Some e -> from <> [] ->
          serial = -1
          /\ exists pre last,
              from = pre ++ [last]
              /\ Exchange (netOf last) last = ExchangeErr e).
Proof.
  induction from as [|tr rest IH]; intros Err serial E; cbn [transferLoop].
  - intros [= <- <-]. split; [congruence|]. intros e _ N. congruence.
  - assert (Step : forall Err',
               (forall e, Err' = Some e ->
                          Exchange (netOf tr) tr = ExchangeErr e) ->
               transferLoop IsSCIONAddress Exchange rest Err' = (serial, E) ->
               (serial <> -1 ->
                  E = None
                  /\ exists tr0 answer,
                      In tr0 (tr :: rest)
                      /\ Exchange (netOf tr0) tr0
                         = ExchangeOk RcodeSuccess answer
                      /\ firstSOA answer = Some serial)
               /\ (forall e, E = Some e -> tr :: rest <> [] ->
                     serial = -1
                     /\ exists pre last,
                         tr :: rest = pre ++ [last]
                         /\ Exchange (netOf last) last = ExchangeErr e)).
    { intros Err' HErr HL. destruct (IH _ _ _ HL) as [A B]. split.
      - intros N. destruct (A N) as (HE & tr0 & answer & HI & HX & HS).
        split; [exact HE|]. exists tr0, answer. repeat split; auto.
        now right.
      - intros e He _. destruct rest as [|tr1 rest'].
        + cbn in HL. injection HL as <- <-. split; [reflexivity|].
          exists [], tr. split; [reflexivity|]. now apply HErr.
        + destruct (B e He) as (Hs & pre & last & Hp & Hx); [discriminate|].
          split; [exact Hs|]. exists (tr :: pre), last.
          split; [cbn; now rewrite Hp|exact Hx]. }
    destruct (Exchange (netOf tr) tr) as [e|rcode answer] eqn:HX.
    + apply Step. intros e' [= <-]. reflexivity.
    + destruct (Z.eqb_spec rcode RcodeSuccess) as [->|N]; cbn [negb].
      * destruct (firstSOA answer) as [s|] eqn:HS.
        -- intros [= <- <-]. split.
           ++ intros _. split; [reflexivity|]. exists tr, answer.
              repeat split; auto. now left.
           ++ discriminate.
        -- apply Step. discriminate.
      * apply Step. discriminate.
Qed.

(** X13: [shouldTransfer] answers true only on evidence, and then with a
    nil error: some primary of the zone answered NOERROR with an SOA
    record, and the zone has no SOA yet or its serial is less than the
    primary's. *)
Theorem shouldTransfer_true_has_evidence (z : Zone) (e : option error) :
  shouldTransfer IsSCIONAddress Exchange z = (true, e) ->
  e = None
  /\ exists tr answer serial,
      In tr (TransferFrom z)
      /\ Exchange (netOf tr) tr = ExchangeOk RcodeSuccess answer
      /\ firstSOA answer = Some serial
      /\ (ApexSOASerial z = None
          \/ exists local, ApexSOASerial z = Some local
                           /\ less local serial = true).
Proof.
  unfold shouldTransfer.
  destruct (transferLoop IsSCIONAddress Exchange (TransferFrom z) None)
    as [serial E] eqn:HL.
  destruct (transferLoop_result _ _ _ _ HL) as [A _].
  destruct (Z.eqb_spec serial (-1)) as [|N]; [discriminate|].
  destruct (A N) as (-> & tr & answer & HI & HX & HS).
  pose proof (firstSOA_range _ _ HS) as R.
  assert (U : uint32 serial = serial) by (apply Z.mod_small; exact R).
  destruct (ApexSOASerial z) as [local|].
  - rewrite U. intros [= HLs <-]. split; [reflexivity|].
    exists tr, answer, serial. repeat split; auto.
    right. now exists local.
  - intros [= <-]. split; [reflexivity|].
    exists tr, answer, serial. repeat split; auto.
Qed.

(** X14: when [shouldTransfer] returns an error, the answer is false and
    the error is the one [Exchange] returned for the last primary in the
    list: the errors of the primaries before the last are dropped. *)
Theorem shouldTransfer_error_is_last_primary (z : Zone) (ans : bool)
        (e : error) :
  shouldTransfer IsSCIONAddress Exchange z = (ans, Some e) ->
  ans = false
  /\ exists pre last,
      TransferFrom z = pre ++ [last]
      /\ Exchange (netOf last) last = ExchangeErr e.
Proof.
  unfold shouldTransfer.
  destruct (transferLoop IsSCIONAddress Exchange (TransferFrom z) None)
    as [serial E] eqn:HL.
  destruct (transferLoop_result _ _ _ _ HL) as [A B].
  destruct (Z.eqb_spec serial (-1)) as [->|N].
  - intros [= <- ->]. split; [reflexivity|].
    destruct (TransferFrom z) as [|tr rest] eqn:HT.
    + cbn in HL. discriminate.
    + destruct (B e eq_refl) as (_ & pre & last & Hp & Hx); [discriminate|].
      now exists pre, last.
  - destruct (A N) as (-> & _).
    destruct (ApexSOASerial z); discriminate.
Qed.

End ShouldTransferFacts.

Lemma shouldTransfer_true_has_evidence_witness :
  shouldTransfer sampleIsSCIONAddress sampleExchange staleZone = (true, None)
  /\ exists tr answer serial,
      In tr (TransferFrom staleZone)
      /\ sampleExchange (if sampleIsSCIONAddress tr then "squic" else "tcp") tr
         = ExchangeOk RcodeSuccess answer
      /\ firstSOA answer = Some serial
      /\ (ApexSOASerial staleZone = None
          \/ exists local, ApexSOASerial staleZone = Some local
                           /\ less local serial = true).
Proof.
  assert (R : shouldTransfer sampleIsSCIONAddress sampleExchange staleZone
              = (true, None)) by (vm_compute; reflexivity).
  split; [exact R|].
  apply (shouldTransfer_true_has_evidence
           sampleIsSCIONAddress sampleExchange staleZone None R).
Defined.

Lemma shouldTransfer_error_is_last_primary_witness :
  shouldTransfer sampleIsSCIONAddress sampleExchange unreachableZone
  = (false, Some (net_Error true "i/o timeout"))
  /\ exists pre last,
      TransferFrom unreachableZone = pre ++ [last]
      /\ sampleExchange (if sampleIsSCIONAddress last then "squic" else "tcp")
                        last
         = ExchangeErr (net_Error true "i/o timeout").
Proof.
  assert (R : shouldTransfer sampleIsSCIONAddress sampleExchange
                unreachableZone
              = (false, Some (net_Error true "i/o timeout")))
    by (vm_compute; reflexivity).
  split; [exact R|].
  apply (shouldTransfer_error_is_last_primary
           sampleIsSCIONAddress sampleExchange unreachableZone false
           (net_Error true "i/o timeout") R).
Defined.

(* ================================================================== *)
(** * Properties of the capturing writers *)

Lemma Writer_WriteMsg_keeps_first (w : Writer) (res : Msg) :
  Writer_Msg w = hd_error (Msgs w) ->
  Writer_Msg (fst (Writer_WriteMsg w res)) = hd_error (Msgs w ++ [res])
  /\ (Msgs w <> [] ->
      Writer_Msg (fst (Writer_WriteMsg w res)) = Writer_Msg w).
Proof.
  intros Inv. cbn. destruct (Msgs w) as [|m0 ms] eqn:E; cbn.
  - split; [reflexivity|congruence].
  - split; [reflexivity|]. intros _. now rewrite Inv.
Qed.

(** Writing a non-empty sequence through the loop of the scrub writer
    into a [nonwriter.Writer]. *)
Lemma writeReplies_nonwriter (w : Writer) (ms : list Msg) :
  ms <> [] ->
  writeReplies w ms
  = ({| Msgs := Msgs w ++ ms; Writer_Msg := hd_error (Msgs w ++ ms) |}, None).
Proof.
  revert w. induction ms as [|m ms IH]; intros w N; [congruence|].
  cbn [writeReplies rw_WriteMsg nonwriter_ResponseWriter Writer_WriteMsg].
  destruct ms as [|m' ms'].
  - cbn [writeReplies]. destruct (Msgs w); reflexivity.
  - rewrite IH by discriminate. cbn [Msgs].
    rewrite <- app_assoc. reflexivity.
Qed.

(** X15: a [nonwriter.Writer] never fails and never forgets: each
    [WriteMsg] returns a nil error, and after any non-empty sequence of
    calls [Msgs] holds the messages in order after those held before, and
    [Msg] is the first message of [Msgs] - for a new writer the first one
    it received, not the last. *)
Theorem nonwriter_keeps_first_message (w : Writer) (ms : list Msg) :
  ms <> [] ->
  (forall w' m, snd (Writer_WriteMsg w' m) = None)
  /\ Msgs (fold_left (fun w' m => fst (Writer_WriteMsg w' m)) ms w)
     = Msgs w ++ ms
  /\ Writer_Msg (fold_left (fun w' m => fst (Writer_WriteMsg w' m)) ms w)
     = hd_error (Msgs w ++ ms).
Proof.
  intros N. split; [reflexivity|].
  revert w. induction ms as [|m ms IH]; intros w; [congruence|].
  cbn [fold_left]. destruct ms as [|m' ms'].
  - cbn. split; [reflexivity|]. destruct (Msgs w); reflexivity.
  - destruct (IH ltac:(discriminate) (fst (Writer_WriteMsg w m))) as [A B].
    rewrite A, B. cbn [Writer_WriteMsg fst Msgs].
    rewrite <- app_assoc. split; reflexivity.
Qed.

Lemma nonwriter_keeps_first_message_witness :
  (forall w' m, snd (Writer_WriteMsg w' m) = None)
  /\ Msgs (fold_left (fun w' m => fst (Writer_WriteMsg w' m))
                     [reply 1; reply 2; reply 3] New)
     = Msgs New ++ [reply 1; reply 2; reply 3]
  /\ Writer_Msg (fold_left (fun w' m => fst (Writer_WriteMsg w' m))
                           [reply 1; reply 2; reply 3] New)
     = hd_error (Msgs New ++ [reply 1; reply 2; reply 3]).
Proof.
  apply (nonwriter_keeps_first_message New [reply 1; reply 2; reply 3]).
  discriminate.
Defined.

Section ScrubWriterFacts.

Context {W : Type} `{ResponseWriter W}.
Variable SizeAndDo : Msg -> Msg -> Msg.
Variable ScrubNoDiscard : Msg -> Msg -> list Msg.

(** Where the loop over the replies stops. *)
Lemma writeReplies_stops_at_first_error (replies : list Msg) :
  forall (w w' : W) (e : error),
    writeReplies w replies = (w', Some e) ->
    exists done failed rest w1,
      replies = done ++ failed :: rest
      /\ writeReplies w done = (w1, None)
      /\ rw_WriteMsg w1 failed = (w', Some e).
Proof.
  induction replies as [|r rs IH]; intros w w' e; cbn [writeReplies].
  - discriminate.
  - destruct (rw_WriteMsg w r) as [w1 [e1|]] eqn:HW.
    + intros [= <- <-]. exists [], r, rs, w. repeat split. exact HW.
    + intros HR. destruct (IH _ _ _ HR) as (done & failed & rest & w2 & A & B & C).
      exists (r :: done), failed, rest, w2. repeat split.
      * cbn. now rewrite A.
      * cbn [writeReplies]. now rewrite HW.
      * exact C.
Qed.

(** X16: [NoDiscardScrubWriter.WriteMsg] on a writer that supports
    several messages writes the replies of [ScrubNoDiscard] in order and
    stops at the first write that fails, returning that error: the replies
    after it are not written.  On a writer that does not support several
    messages it writes nothing and returns an error. *)
Theorem NoDiscardScrubWriter_stops_at_first_error (w w' : W) (req m : Msg)
        (e : error) :
  NoDiscardScrubWriter_WriteMsg SizeAndDo ScrubNoDiscard w req m
  = (w', Some e) ->
  (rw_SupportsMultiMsg w = false /\ w' = w)
  \/ (rw_SupportsMultiMsg w = true
      /\ exists done failed rest w1,
          ScrubNoDiscard req (SizeAndDo req m) = done ++ failed :: rest
          /\ writeReplies w done = (w1, None)
          /\ rw_WriteMsg w1 failed = (w', Some e)).
Proof.
  unfold NoDiscardScrubWriter_WriteMsg.
  destruct (rw_SupportsMultiMsg w); cbn [negb].
  - intros HR. right. split; [reflexivity|].
    now apply writeReplies_stops_at_first_error.
  - intros [= <- _]. left. split; reflexivity.
Qed.

End ScrubWriterFacts.

Lemma NoDiscardScrubWriter_stops_at_first_error_witness :
  let w := {| sent := []; room := 2 |} in
  let e := net_Error false "write: broken pipe" in
  exists w',
    NoDiscardScrubWriter_WriteMsg sampleSizeAndDo sampleScrubNoDiscard
      w plainQuery plainQuery = (w', Some e)
    /\ List.length (sent w') = 2%nat
    /\ ((rw_SupportsMultiMsg w = false /\ w' = w)
        \/ (rw_SupportsMultiMsg w = true
            /\ exists done failed rest w1,
                sampleScrubNoDiscard plainQuery
                  (sampleSizeAndDo plainQuery plainQuery)
                = done ++ failed :: rest
                /\ writeReplies w done = (w1, None)
                /\ rw_WriteMsg w1 failed = (w', Some e))).
Proof.
  intros w e. eexists. split; [vm_compute; reflexivity|].
  split; [reflexivity|].
  apply (NoDiscardScrubWriter_stops_at_first_error
           sampleSizeAndDo sampleScrubNoDiscard w _ plainQuery plainQuery e).
  vm_compute. reflexivity.
Defined.

(** X17: through a [nonwriter.Writer], [NoDiscardScrubWriter.WriteMsg]
    never fails: every reply of [ScrubNoDiscard] is recorded, in order,
    and when there is at least one reply [Msg] is the first message of
    [Msgs]. *)
Theorem NoDiscardScrubWriter_over_nonwriter
        (SizeAndDo : Msg -> Msg -> Msg)
        (ScrubNoDiscard : Msg -> Msg -> list Msg)
        (w : Writer) (req m : Msg) :
  snd (NoDiscardScrubWriter_WriteMsg SizeAndDo ScrubNoDiscard w req m) = None
  /\ Msgs (fst (NoDiscardScrubWriter_WriteMsg SizeAndDo ScrubNoDiscard
                  w req m))
     = Msgs w ++ ScrubNoDiscard req (SizeAndDo req m)
  /\ (ScrubNoDiscard req (SizeAndDo req m) <> [] ->
      Writer_Msg (fst (NoDiscardScrubWriter_WriteMsg SizeAndDo ScrubNoDiscard
                         w req m))
      = hd_error (Msgs w ++ ScrubNoDiscard req (SizeAndDo req m))).
Proof.
  unfold NoDiscardScrubWriter_WriteMsg.
  cbn [rw_SupportsMultiMsg nonwriter_ResponseWriter negb].
  destruct (ScrubNoDiscard req (SizeAndDo req m)) as [|r rs] eqn:E.
  - cbn. split; [reflexivity|]. split; [now rewrite app_nil_r|congruence].
  - rewrite writeReplies_nonwriter by discriminate.
    cbn. repeat split.
Qed.

(* ================================================================== *)
(** * Properties of the reverse names *)

(** ** Strings *)

Lemma str_app_assoc (a b c : string) :
  ((a ++ b) ++ c)%string = (a ++ (b ++ c))%string.
Proof. induction a as [|x a IH]; cbn; [reflexivity|now rewrite IH]. Qed.

Lemma str_app_nil_r (a : string) : (a ++ "")%string = a.
Proof. induction a as [|x a IH]; cbn; [reflexivity|now rewrite IH]. Qed.

Lemma str_app_length (a b : string) :
  String.length (a ++ b) = (String.length a + String.length b)%nat.
Proof. induction a as [|x a IH]; cbn; [reflexivity|now rewrite IH]. Qed.

Lemma strFrom_app (a b : string) : strFrom (String.length a) (a ++ b) = b.
Proof. induction a as [|x a IH]; cbn; [now destruct b|exact IH]. Qed.

Lemma strTo_app (a b : string) : strTo (String.length a) (a ++ b) = a.
Proof.
  unfold strTo. induction a as [|x a IH]; cbn; [now destruct b|].
  now rewrite IH.
Qed.

Lemma strTo_strFrom (n : nat) (s : string) :
  (strTo n s ++ strFrom n s)%string = s.
Proof.
  unfold strTo. revert s. induction n as [|n IH]; intros s.
  - destruct s; reflexivity.
  - destruct s as [|x s]; [reflexivity|]. cbn. now rewrite IH.
Qed.

(** [HasSuffix] says that the string ends with the suffix. *)
Lemma HasSuffix_iff (s suffix : string) :
  HasSuffix s suffix = true <-> exists p, s = (p ++ suffix)%string.
Proof.
  unfold HasSuffix. split.
  - intros H. apply andb_true_iff in H. destruct H as [HL HE].
    apply String.eqb_eq in HE.
    remember (String.length s - String.length suffix)%nat as k eqn:Hk.
    clear Hk HL. exists (strTo k s). subst suffix.
    symmetry. apply strTo_strFrom.
  - intros [p ->]. apply andb_true_iff. split.
    + apply Nat.leb_le. rewrite str_app_length. lia.
    + rewrite str_app_length.
      replace (String.length p + String.length suffix
               - String.length suffix)%nat
        with (String.length p) by lia.
      rewrite strFrom_app. apply String.eqb_refl.
Qed.

Lemma TrimSuffix_app (p suffix : string) :
  TrimSuffix (p ++ suffix) suffix = p.
Proof.
  unfold TrimSuffix.
  replace (HasSuffix (p ++ suffix) suffix) with true
    by (symmetry; apply HasSuffix_iff; now exists p).
  rewrite str_app_length.
  replace (String.length p + String.length suffix
           - String.length suffix)%nat
    with (String.length p) by lia.
  apply strTo_app.
Qed.

(** Of two suffixes of one string the shorter is a suffix of the
    longer. *)
Lemma suffixes_nest (p q a b : string) :
  (p ++ a)%string = (q ++ b)%string ->
  (String.length b <= String.length a)%nat ->
  exists r, a = (r ++ b)%string.
Proof.
  revert q. induction p as [|x p IH]; intros q E L.
  - exists q. exact E.
  - destruct q as [|y q].
    + cbn in E. subst b. cbn in L. rewrite str_app_length in L. lia.
    + cbn in E. injection E as _ E. exact (IH q E L).
Qed.

Lemma HasSuffix_exclusive (s a b : string) :
  HasSuffix s a = true ->
  (String.length b <= String.length a)%nat ->
  HasSuffix a b = false ->
  HasSuffix s b = false.
Proof.
  intros Ha L Hab.
  destruct (HasSuffix s b) eqn:Hb; [|reflexivity].
  apply HasSuffix_iff in Ha. destruct Ha as [p ->].
  apply HasSuffix_iff in Hb. destruct Hb as [q E].
  destruct (suffixes_nest p q a b E L) as [r Hr].
  assert (HasSuffix a b = true) by (apply HasSuffix_iff; now exists r).
  congruence.
Qed.

(** X18: [IsReverse] tells the three reverse trees apart: it is 1, 2 or
    3 exactly for the names that end in ".in-addr.arpa.", ".ip6.arpa." or
    ".scion.arpa." (no name ends in two of them), and 0 for every other
    name. *)
Theorem IsReverse_classifies (name : string) :
  (IsReverse name = 1 <-> exists p, name = (p ++ IP4arpa)%string)
  /\ (IsReverse name = 2 <-> exists p, name = (p ++ IP6arpa)%string)
  /\ (IsReverse name = 3 <-> exists p, name = (p ++ SCIONarpa)%string)
  /\ (IsReverse name = 0
      <-> HasSuffix name IP4arpa = false
          /\ HasSuffix name IP6arpa = false
          /\ HasSuffix name SCIONarpa = false).
Proof.
  rewrite <- !HasSuffix_iff. unfold IsReverse.
  destruct (HasSuffix name IP4arpa) eqn:H4.
  { rewrite (HasSuffix_exclusive name IP4arpa IP6arpa H4)
      by (vm_compute; first [lia | reflexivity]).
    rewrite (HasSuffix_exclusive name IP4arpa SCIONarpa H4)
      by (vm_compute; first [lia | reflexivity]).
    repeat split; intros; try discriminate; try reflexivity;
      intuition discriminate. }
  destruct (HasSuffix name IP6arpa) eqn:H6.
  { destruct (HasSuffix name SCIONarpa) eqn:HS.
    - pose proof (HasSuffix_exclusive name SCIONarpa IP6arpa HS) as X.
      rewrite X in H6 by (vm_compute; first [lia | reflexivity]).
      discriminate.
    - repeat split; intros; try discriminate; try reflexivity;
        intuition discriminate. }
  destruct (HasSuffix name SCIONarpa) eqn:HS;
    repeat split; intros; try discriminate; try reflexivity;
      intuition discriminate.
Qed.

(** ** Splitting at one byte *)

Lemma SplitFrom_not_nil (sep : string) (s : string) :
  forall k, SplitFrom sep k s <> [].
Proof.
  induction s as [|x s IH]; intros k; cbn [SplitFrom]; [discriminate|].
  destruct k; [|apply IH].
  destruct (prefix sep (String x s)); [discriminate|].
  destruct (SplitFrom sep 0 s); discriminate.
Qed.

Lemma Split1_cons (c x : ascii) (s : string) :
  Split (String x s) (String c "")
  = if (x =? c)%char
    then EmptyString :: Split s (String c "")
    else match Split s (String c "") with
         | piece :: pieces => String x piece :: pieces
         | [] => [String x EmptyString]
         end.
Proof.
  unfold Split. cbn [SplitFrom prefix String.length Nat.sub].
  destruct (Ascii.eqb_spec x c) as [->|N].
  - destruct (ascii_dec c c) as [_|N]; [|congruence].
    now destruct s.
  - destruct (ascii_dec c x) as [E|_]; [congruence|reflexivity].
Qed.

Lemma Split1_nil (c : ascii) : Split "" (String c "") = [EmptyString].
Proof. reflexivity. Qed.

(** A piece without the separator at the head of the string is the head
    of the first piece. *)
Lemma Split1_app_lacks (c : ascii) (a rest : string) :
  lacks c a = true ->
  Split (a ++ rest) (String c "")
  = match Split rest (String c "") with
    | piece :: pieces => (a ++ piece)%string :: pieces
    | [] => [a]
    end.
Proof.
  induction a as [|x a IH]; intros L.
  - cbn [String.append].
    destruct (Split rest (String c "")) eqn:E; [|reflexivity].
    now apply SplitFrom_not_nil in E.
  - cbn in L. apply andb_true_iff in L. destruct L as [Lx La].
    cbn [String.append]. rewrite Split1_cons.
    apply negb_true_iff in Lx. rewrite Lx, (IH La).
    destruct (Split rest (String c "")); reflexivity.
Qed.

Lemma Split1_app_sep (c : ascii) (a rest : string) :
  lacks c a = true ->
  Split (a ++ String c rest) (String c "") = a :: Split rest (String c "").
Proof.
  intros L. rewrite (Split1_app_lacks c a _ L), Split1_cons, Ascii.eqb_refl.
  now rewrite str_app_nil_r.
Qed.

Lemma Split1_lacks (c : ascii) (a : string) :
  lacks c a = true -> Split a (String c "") = [a].
Proof.
  intros L. rewrite <- (str_app_nil_r a) at 1.
  rewrite (Split1_app_lacks c a _ L). cbn. now rewrite str_app_nil_r.
Qed.

(** Joining the pieces gives the string back. *)
Lemma Join_Split1 (c : ascii) (s : string) :
  Join (Split s (String c "")) (String c "") = s.
Proof.
  unfold Join. induction s as [|x s IH]; [reflexivity|].
  rewrite Split1_cons. destruct (x =? c)%char eqn:E.
  - apply Ascii.eqb_eq in E. subst x.
    destruct (Split s (String c "")) as [|p ps] eqn:ES;
      [now apply SplitFrom_not_nil in ES|].
    rewrite <- IH. reflexivity.
  - destruct (Split s (String c "")) as [|p ps] eqn:ES;
      [now apply SplitFrom_not_nil in ES|].
    rewrite <- IH. destruct ps; reflexivity.
Qed.

(** No piece holds the separator. *)
Lemma Split1_pieces (c : ascii) (s : string) :
  Forall (fun piece => lacks c piece = true) (Split s (String c "")).
Proof.
  induction s as [|x s IH]; [repeat constructor|].
  rewrite Split1_cons. destruct (x =? c)%char eqn:E.
  - constructor; [reflexivity|exact IH].
  - destruct (Split s (String c "")) as [|p ps].
    + repeat constructor. cbn. now rewrite E.
    + inversion IH; subst. constructor; [|assumption].
      cbn. rewrite E. assumption.
Qed.

(** Splitting the join of pieces without the separator gives the
    pieces back. *)
Lemma Split1_Join (c : ascii) (pieces : list string) :
  pieces <> [] ->
  Forall (fun piece => lacks c piece = true) pieces ->
  Split (Join pieces (String c "")) (String c "") = pieces.
Proof.
  unfold Join. induction pieces as [|p ps IH]; intros N F; [congruence|].
  inversion F as [|? ? Lp Fps]; subst.
  destruct ps as [|p' ps'].
  - cbn. now apply Split1_lacks.
  - change (String.concat (String c "") (p :: p' :: ps'))
      with (p ++ String c (String.concat (String c "") (p' :: ps')))%string.
    rewrite (Split1_app_sep c p _ Lp).
    rewrite IH; [reflexivity|discriminate|assumption].
Qed.

Lemma allDigits_lacks_dot (s : string) :
  allDigits s = true -> lacks "." s = true.
Proof.
  induction s as [|x s IH]; [reflexivity|]. cbn. intros H.
  apply andb_true_iff in H. destruct H as [Hx Hs].
  rewrite (IH Hs), andb_true_r.
  destruct (Ascii.eqb_spec x ".") as [->|]; [|reflexivity].
  vm_compute in Hx. discriminate.
Qed.

(** ** Dotted quads *)

(** A successful [dtoi] has read a run of digits and stopped at its
    end; the number it returns is below [big]. *)
Lemma dtoi_loop_ok (s : string) :
  forall (n i m c : Z),
    0 <= i -> 0 <= n < big ->
    dtoi_loop s n i = (m, c, true) ->
    exists digits rest,
      s = (digits ++ rest)%string
      /\ allDigits digits = true
      /\ c = i + Z.of_nat (String.length digits)
      /\ (i = 0 -> digits <> EmptyString)
      /\ 0 <= m < big.
Proof.
  induction s as [|x s IH]; intros n i m c Hi Hn; cbn [dtoi_loop].
  - destruct (Z.eqb_spec i 0); [discriminate|]. intros [= <- <-].
    exists EmptyString, EmptyString. cbn. repeat split; try lia.
  - destruct ((48 <=? byteval x) && (byteval x <=? 57)) eqn:D.
    + destruct (Z.leb_spec big (n * 10 + (byteval x - 48))) as [|B];
        [discriminate|].
      intros H. apply IH in H; [|lia|].
      * destruct H as (digits & rest & -> & A & -> & _ & M).
        exists (String x digits), rest. cbn [String.append allDigits String.length].
        rewrite D, A. repeat split; try lia. discriminate.
      * apply andb_true_iff in D. lia.
    + destruct (Z.eqb_spec i 0); [discriminate|]. intros [= <- <-].
      exists EmptyString, (String x s). cbn. repeat split; try lia.
Qed.

Lemma dtoi_ok (s : string) (m c : Z) :
  dtoi s = (m, c, true) ->
  exists digits rest,
    s = (digits ++ rest)%string
    /\ allDigits digits = true
    /\ digits <> EmptyString
    /\ strFrom (Z.to_nat c) s = rest.
Proof.
  intros H. apply dtoi_loop_ok in H; [|lia|unfold big; lia].
  destruct H as (digits & rest & -> & A & -> & N & _).
  exists digits, rest. repeat split; auto.
  rewrite Z.add_0_l, Nat2Z.id. apply strFrom_app.
Qed.

(** One round of the loop of [ParseIPv4] that goes through. *)
Lemma ParseIPv4_round (todo i : nat) (s : string) (p ip : list byte) :
  ParseIPv4_loop (S todo) i s p = Some ip ->
  exists digits rest p',
    s = ((if (0 <? i)%nat then "." else "") ++ digits ++ rest)%string
    /\ allDigits digits = true
    /\ digits <> EmptyString
    /\ ParseIPv4_loop todo (S i) rest p' = Some ip.
Proof.
  cbn [ParseIPv4_loop]. destruct s as [|c0 s0]; [discriminate|].
  assert (Go : forall s1,
             match dtoi s1 with
             | (n, c, ok) =>
                 if negb ok || (255 <? n) then None
                 else if (1 <? c) && prefix "0" s1 then None
                      else ParseIPv4_loop todo (S i) (strFrom (Z.to_nat c) s1)
                                          (setIndex p i (byte_of_Z n))
             end = Some ip ->
             exists digits rest p',
               s1 = (digits ++ rest)%string
               /\ allDigits digits = true
               /\ digits <> EmptyString
               /\ ParseIPv4_loop todo (S i) rest p' = Some ip).
  { intros s1. destruct (dtoi s1) as [[n c] ok] eqn:HD.
    destruct ok; cbn [negb orb]; [|discriminate].
    destruct (255 <? n); [discriminate|].
    destruct ((1 <? c) && prefix "0" s1); [discriminate|].
    intros HL. destruct (dtoi_ok s1 n c HD) as (digits & rest & E & A & N & F).
    exists digits, rest, (setIndex p i (byte_of_Z n)).
    repeat split; auto. now rewrite <- F. }
  destruct (0 <? i)%nat.
  - destruct (Ascii.eqb_spec c0 ".") as [->|]; [|discriminate].
    intros HL. destruct (Go s0 HL) as (digits & rest & p' & E & A & N & L).
    exists digits, rest, p'. repeat split; auto. cbn. now rewrite E.
  - intros HL. destruct (Go (String c0 s0) HL)
      as (digits & rest & p' & E & A & N & L).
    exists digits, rest, p'. repeat split; auto.
Qed.

(** The shape of a string that [ParseIPv4] accepts. *)
Lemma ParseIPv4_shape (s : string) (ip : list byte) :
  ParseIPv4 s = Some ip ->
  exists a b c d,
    s = (a ++ "." ++ b ++ "." ++ c ++ "." ++ d)%string
    /\ allDigits a = true /\ allDigits b = true
    /\ allDigits c = true /\ allDigits d = true
    /\ a <> EmptyString /\ b <> EmptyString
    /\ c <> EmptyString /\ d <> EmptyString.
Proof.
  unfold ParseIPv4. intros H.
  apply ParseIPv4_round in H.
  destruct H as (a & r1 & p1 & E1 & A1 & N1 & H).
  apply ParseIPv4_round in H.
  destruct H as (b & r2 & p2 & E2 & A2 & N2 & H).
  apply ParseIPv4_round in H.
  destruct H as (c & r3 & p3 & E3 & A3 & N3 & H).
  apply ParseIPv4_round in H.
  destruct H as (d & r4 & p4 & E4 & A4 & N4 & H).
  cbn [ParseIPv4_loop] in H. destruct r4; [|discriminate].
  cbn [Nat.ltb Nat.leb] in *.
  exists a, b, c, d. repeat split; auto.
  rewrite E1, E2, E3, E4. cbn [String.append].
  now rewrite (str_app_nil_r d).
Qed.

Lemma invert_four (a b c d : string) :
  lacks "." a = true -> lacks "." b = true ->
  lacks "." c = true -> lacks "." d = true ->
  InvertIPv4 (a ++ "." ++ b ++ "." ++ c ++ "." ++ d)
  = Return ((d ++ "." ++ c ++ "." ++ b ++ "." ++ a)%string, None).
Proof.
  intros La Lb Lc Ld. unfold InvertIPv4.
  assert (S4 : Split (a ++ "." ++ b ++ "." ++ c ++ "." ++ d) "."
               = [a; b; c; d]).
  { cbn [String.append].
    rewrite (Split1_app_sep "." a _ La), (Split1_app_sep "." b _ Lb),
      (Split1_app_sep "." c _ Lc), (Split1_lacks "." d Ld). reflexivity. }
  rewrite S4. cbn [len List.length Z.of_nat Pos.of_succ_nat Pos.succ
                   Z.eqb Pos.eqb negb invertLoop nth_error String.append].
  rewrite !str_app_assoc. reflexivity.
Qed.

(** X19: a string that [ParseIPv4] accepts is four non-empty runs of
    decimal digits with dots between them, and [InvertIPv4] - which
    [AddressToReverse] calls on such a string - turns it into the same
    four runs in the opposite order, with a nil error. *)
Theorem ParseIPv4_accepted_is_inverted (s : string) (ip : list byte) :
  ParseIPv4 s = Some ip ->
  exists a b c d,
    s = (a ++ "." ++ b ++ "." ++ c ++ "." ++ d)%string
    /\ allDigits a = true /\ allDigits b = true
    /\ allDigits c = true /\ allDigits d = true
    /\ a <> EmptyString /\ b <> EmptyString
    /\ c <> EmptyString /\ d <> EmptyString
    /\ InvertIPv4 s
       = Return ((d ++ "." ++ c ++ "." ++ b ++ "." ++ a)%string, None).
Proof.
  intros H.
  destruct (ParseIPv4_shape s ip H)
    as (a & b & c & d & E & Aa & Ab & Ac & Ad & Na & Nb & Nc & Nd).
  exists a, b, c, d. repeat split; auto.
  rewrite E. apply invert_four; now apply allDigits_lacks_dot.
Qed.

Lemma ParseIPv4_accepted_is_inverted_witness :
  exists a b c d,
    "127.0.0.1" = (a ++ "." ++ b ++ "." ++ c ++ "." ++ d)%string
    /\ allDigits a = true /\ allDigits b = true
    /\ allDigits c = true /\ allDigits d = true
    /\ a <> EmptyString /\ b <> EmptyString
    /\ c <> EmptyString /\ d <> EmptyString
    /\ InvertIPv4 "127.0.0.1"
       = Return ((d ++ "." ++ c ++ "." ++ b ++ "." ++ a)%string, None).
Proof.
  apply (ParseIPv4_accepted_is_inverted "127.0.0.1"
           (IPv4 "127"%byte x00 x00 x01)).
  vm_compute. reflexivity.
Defined.

Lemma InvertIPv4_cases (s : string) :
  (exists a b c d,
      Split s "." = [a; b; c; d]
      /\ s = (a ++ "." ++ b ++ "." ++ c ++ "." ++ d)%string
      /\ lacks "." a = true /\ lacks "." b = true
      /\ lacks "." c = true /\ lacks "." d = true
      /\ InvertIPv4 s
         = Return ((d ++ "." ++ c ++ "." ++ b ++ "." ++ a)%string, None))
  \/ (len (Split s ".") <> 4
      /\ InvertIPv4 s
         = Return (EmptyString,
                   Some (other_error (s ++ " is not an IPV4")%string))).
Proof.
  destruct (Z.eq_dec (len (Split s ".")) 4) as [E|N].
  - left. pose proof (Split1_pieces "." s) as F.
    pose proof (Join_Split1 "." s) as J.
    destruct (Split s ".") as [|a [|b [|c [|d [|e l]]]]] eqn:ES;
      try (cbn in E; lia).
    pose proof (Forall_inv F) as La.
    pose proof (Forall_inv_tail F) as F1.
    pose proof (Forall_inv F1) as Lb.
    pose proof (Forall_inv_tail F1) as F2.
    pose proof (Forall_inv F2) as Lc.
    pose proof (Forall_inv_tail F2) as F3.
    pose proof (Forall_inv F3) as Ld.
    cbn beta in La, Lb, Lc, Ld.
    assert (Es : s = (a ++ "." ++ b ++ "." ++ c ++ "." ++ d)%string)
      by (rewrite <- J; reflexivity).
    exists a, b, c, d. repeat split; auto.
    rewrite Es at 1. now apply invert_four.
  - right. split; [exact N|]. unfold InvertIPv4.
    apply Z.eqb_neq in N. now rewrite N.
Qed.

(** X20: [InvertIPv4] never panics; it returns a nil error exactly for
    the strings with three dots; and it undoes itself: inverting its
    result gives the string back. *)
Theorem InvertIPv4_involution (s : string) :
  (exists r e, InvertIPv4 s = Return (r, e)
               /\ (e = None <-> len (Split s ".") = 4))
  /\ (forall r, InvertIPv4 s = Return (r, None) ->
                InvertIPv4 r = Return (s, None)).
Proof.
  destruct (InvertIPv4_cases s)
    as [(a & b & c & d & ES & Es & La & Lb & Lc & Ld & HI)|(N & HI)].
  - split.
    + eexists _, _. split; [exact HI|]. rewrite ES. split; reflexivity.
    + intros r Hr. rewrite HI in Hr. injection Hr as <-.
      rewrite Es. now apply invert_four.
  - split.
    + eexists _, _. split; [exact HI|]. split; [discriminate|contradiction].
    + intros r Hr. rewrite HI in Hr. discriminate.
Qed.

(** X21: [InvertIPv6] never returns a nil error: when the string has
    fourteen colons the loop starts at [octets[15]] of fifteen octets and
    panics; for every other string - every well-formed IPv6 address among
    them - the error "is not an IPV6" is returned. *)
Theorem InvertIPv6_never_succeeds (ip : string) :
  (len (Split ip ":") = 15 ->
   InvertIPv6 ip = RuntimePanic "index out of range")
  /\ (len (Split ip ":") <> 15 ->
      InvertIPv6 ip
      = Return (EmptyString,
                Some (other_error (ip ++ " is not an IPV6")%string)))
  /\ (forall r, InvertIPv6 ip <> Return (r, None)).
Proof.
  assert (A : len (Split ip ":") = 15 ->
              InvertIPv6 ip = RuntimePanic "index out of range").
  { intros E. unfold InvertIPv6. rewrite E. cbn [Z.eqb Pos.eqb negb].
    replace (invertLoop ":" (Split ip ":") 15 "") with (@None string);
      [reflexivity|].
    cbn [invertLoop].
    replace (nth_error (Split ip ":") 15) with (@None string);
      [reflexivity|].
    symmetry. apply nth_error_None. unfold len in E. lia. }
  assert (B : len (Split ip ":") <> 15 ->
              InvertIPv6 ip
              = Return (EmptyString,
                        Some (other_error (ip ++ " is not an IPV6")%string))).
  { intros N. unfold InvertIPv6. apply Z.eqb_neq in N. now rewrite N. }
  split; [exact A|]. split; [exact B|].
  intros r. destruct (Z.eq_dec (len (Split ip ":")) 15) as [E|N].
  - rewrite (A E). discriminate.
  - rewrite (B N). discriminate.
Qed.

(** ** ISD-AS numbers *)

Lemma Replace1_cons (a b x : ascii) (s : string) (n : Z) :
  Replace (String x s) (String a "") (String b "") n
  = if negb (n =? 0) && (x =? a)%char
    then String b (Replace s (String a "") (String b "")
                           (if n <? 0 then n else n - 1))
    else String x (Replace s (String a "") (String b "") n).
Proof.
  unfold Replace. cbn [ReplaceFrom prefix String.length Nat.sub].
  destruct (Ascii.eqb_spec x a) as [->|N].
  - destruct (ascii_dec a a) as [_|N]; [|congruence].
    destruct s; reflexivity.
  - destruct (ascii_dec a x) as [E|_]; [congruence|].
    now rewrite andb_false_r.
Qed.

Lemma Replace_zero (old new s : string) : Replace s old new 0 = s.
Proof.
  unfold Replace. induction s as [|x s IH]; [reflexivity|].
  cbn [ReplaceFrom Z.eqb negb andb]. now rewrite IH.
Qed.

Lemma Replace1_lacks (a b : ascii) (s : string) (n : Z) :
  lacks a s = true -> Replace s (String a "") (String b "") n = s.
Proof.
  induction s as [|x s IH]; [reflexivity|]. cbn [lacks]. intros L.
  apply andb_true_iff in L. destruct L as [Lx Ls].
  apply negb_true_iff in Lx.
  rewrite Replace1_cons, Lx, andb_false_r, (IH Ls). reflexivity.
Qed.

(** Replacing up to and including the first occurrence. *)
Lemma Replace1_app (a b : ascii) (p rest : string) (n : Z) :
  lacks a p = true -> n <> 0 ->
  Replace (p ++ String a rest) (String a "") (String b "") n
  = String.append p
      (String b (Replace rest (String a "") (String b "")
                         (if n <? 0 then n else n - 1))).
Proof.
  intros L N. induction p as [|x p IH].
  - cbn [String.append]. rewrite Replace1_cons, Ascii.eqb_refl.
    apply Z.eqb_neq in N. now rewrite N.
  - cbn [lacks] in L. apply andb_true_iff in L. destruct L as [Lx Lp].
    apply negb_true_iff in Lx. cbn [String.append].
    rewrite Replace1_cons, Lx, andb_false_r, (IH Lp). reflexivity.
Qed.

Lemma Count1_cons (a x : ascii) (s : string) :
  Count (String x s) (String a "")
  = (if (x =? a)%char then 1 else 0) + Count s (String a "").
Proof.
  unfold Count. cbn [CountFrom prefix String.length Nat.sub].
  destruct (Ascii.eqb_spec x a) as [->|N].
  - destruct (ascii_dec a a) as [_|N]; [|congruence].
    destruct s; reflexivity.
  - destruct (ascii_dec a x) as [E|_]; [congruence|reflexivity].
Qed.

Lemma Count1_lacks (a : ascii) (s : string) :
  lacks a s = true -> Count s (String a "") = 0.
Proof.
  induction s as [|x s IH]; [reflexivity|]. cbn [lacks]. intros L.
  apply andb_true_iff in L. destruct L as [Lx Ls].
  apply negb_true_iff in Lx. rewrite Count1_cons, Lx, (IH Ls). reflexivity.
Qed.

Lemma Count1_app (a : ascii) (p rest : string) :
  lacks a p = true ->
  Count (p ++ String a rest) (String a "") = 1 + Count rest (String a "").
Proof.
  intros L. induction p as [|x p IH].
  - cbn [String.append]. now rewrite Count1_cons, Ascii.eqb_refl.
  - cbn [lacks] in L. apply andb_true_iff in L. destruct L as [Lx Lp].
    apply negb_true_iff in Lx. cbn [String.append].
    rewrite Count1_cons, Lx, (IH Lp). reflexivity.
Qed.

(** X22: [uninvertISAS] undoes [invertISAS] on every ISD-AS number of
    the form isd-a:b:c whose four parts hold neither a colon nor a
    hyphen: the inverted form is isd-a-b-c, and un-inverting it returns
    the original with a nil error. *)
Theorem uninvertISAS_invertISAS (isd a b c : string) :
  lacks ":" isd = true -> lacks "-" isd = true ->
  lacks ":" a = true -> lacks "-" a = true ->
  lacks ":" b = true -> lacks "-" b = true ->
  lacks ":" c = true -> lacks "-" c = true ->
  invertISAS (isd ++ "-" ++ a ++ ":" ++ b ++ ":" ++ c)
  = (isd ++ "-" ++ a ++ "-" ++ b ++ "-" ++ c)%string
  /\ uninvertISAS (invertISAS (isd ++ "-" ++ a ++ ":" ++ b ++ ":" ++ c))
     = ((isd ++ "-" ++ a ++ ":" ++ b ++ ":" ++ c)%string, None).
Proof.
  intros Ci Hi Ca Ha Cb Hb Cc Hc.
  assert (Inv : invertISAS (isd ++ "-" ++ a ++ ":" ++ b ++ ":" ++ c)
                = (isd ++ "-" ++ a ++ "-" ++ b ++ "-" ++ c)%string).
  { unfold invertISAS. cbn [String.append].
    assert (L1 : lacks ":" (isd ++ String "-" a) = true).
    { clear - Ci Ca. induction isd as [|x s IH]; cbn.
      - exact Ca.
      - cbn in Ci. apply andb_true_iff in Ci. destruct Ci as [-> Cs].
        now rewrite (IH Cs). }
    replace (isd ++ String "-" (a ++ String ":" (b ++ String ":" c)))%string
      with ((isd ++ String "-" a) ++ String ":" (b ++ String ":" c))%string
      by (rewrite str_app_assoc; reflexivity).
    rewrite (Replace1_app ":" "-" _ _ (-1) L1) by lia. cbn [Z.ltb Z.compare].
    rewrite (Replace1_app ":" "-" _ _ (-1) Cb) by lia. cbn [Z.ltb Z.compare].
    rewrite (Replace1_lacks ":" "-" c (-1) Cc).
    rewrite str_app_assoc. reflexivity. }
  split; [exact Inv|]. rewrite Inv. unfold uninvertISAS.
  cbn [String.append].
  rewrite (Count1_app "-" isd _ Hi), (Count1_app "-" a _ Ha),
    (Count1_app "-" b _ Hb), (Count1_lacks "-" c Hc).
  cbn [Z.add Pos.add Pos.succ Z.eqb Pos.eqb negb].
  rewrite (Replace1_app "-" ":" isd _ (-1) Hi) by lia. cbn [Z.ltb Z.compare].
  rewrite (Replace1_app "-" ":" a _ (-1) Ha) by lia. cbn [Z.ltb Z.compare].
  rewrite (Replace1_app "-" ":" b _ (-1) Hb) by lia. cbn [Z.ltb Z.compare].
  rewrite (Replace1_lacks "-" ":" c (-1) Hc).
  rewrite (Replace1_app ":" "-" isd _ 1 Ci) by lia.
  cbn [Z.ltb Z.compare Z.sub Z.add Z.opp Z.pos_sub].
  rewrite Replace_zero. reflexivity.
Qed.

Lemma uninvertISAS_invertISAS_witness :
  invertISAS ("19" ++ "-" ++ "ffaa" ++ ":" ++ "1" ++ ":" ++ "1067")
  = ("19" ++ "-" ++ "ffaa" ++ "-" ++ "1" ++ "-" ++ "1067")%string
  /\ uninvertISAS
       (invertISAS ("19" ++ "-" ++ "ffaa" ++ ":" ++ "1" ++ ":" ++ "1067"))
     = (("19" ++ "-" ++ "ffaa" ++ ":" ++ "1" ++ ":" ++ "1067")%string, None).
Proof.
  apply (uninvertISAS_invertISAS "19" "ffaa" "1" "1067"); reflexivity.
Defined.

(** ** Reversing a slice in place *)

Lemma setIndex_length {A : Type} (l : list A) (i : nat) (v : A) :
  List.length (setIndex l i v) = List.length l.
Proof.
  revert i. induction l as [|x l IH]; intros i; [reflexivity|].
  destruct i; cbn; [reflexivity|]. now rewrite IH.
Qed.

Lemma setIndex_nth {A : Type} (l : list A) (i idx : nat) (v d : A) :
  (i < List.length l)%nat ->
  nth idx (setIndex l i v) d = if (idx =? i)%nat then v else nth idx l d.
Proof.
  revert i idx. induction l as [|x l IH]; intros i idx L; [cbn in L; lia|].
  destruct i, idx; cbn; try reflexivity.
  apply IH. cbn in L. lia.
Qed.

Lemma swapIndex_length (l : list string) (i j : nat) :
  List.length (swapIndex l i j) = List.length l.
Proof. unfold swapIndex. now rewrite !setIndex_length. Qed.

Lemma swapIndex_nth (l : list string) (i j idx : nat) :
  (i < List.length l)%nat -> (j < List.length l)%nat ->
  nth idx (swapIndex l i j) ""
  = if (idx =? j)%nat then nth i l ""
    else if (idx =? i)%nat then nth j l "" else nth idx l "".
Proof.
  intros Li Lj. unfold swapIndex.
  rewrite setIndex_nth by (rewrite setIndex_length; exact Lj).
  destruct (idx =? j)%nat; [reflexivity|].
  now rewrite setIndex_nth by exact Li.
Qed.

(** After [k] rounds the first [k] and the last [k] elements have
    changed places, mirrored. *)
Lemma reverse_rounds (l : list string) (k : nat) :
  (2 * k <= List.length l)%nat ->
  List.length
    (fold_left (fun sl i => swapIndex sl i (List.length sl - i - 1))
               (seq 0 k) l)
  = List.length l
  /\ forall idx, (idx < List.length l)%nat ->
       nth idx
           (fold_left (fun sl i => swapIndex sl i (List.length sl - i - 1))
                      (seq 0 k) l) ""
       = if ((idx <? k) || (List.length l - k <=? idx))%nat
         then nth (List.length l - 1 - idx) l ""
         else nth idx l "".
Proof.
  induction k as [|k IH]; intros Hk.
  - cbn [seq fold_left]. split; [reflexivity|]. intros idx Hi.
    destruct (Nat.leb_spec (List.length l - 0) idx); [lia|reflexivity].
  - destruct IH as [HL HN]; [lia|].
    rewrite seq_S, fold_left_app. cbn [Nat.add fold_left].
    set (r := fold_left _ (seq 0 k) l) in *.
    split; [now rewrite swapIndex_length|].
    intros idx Hi. rewrite HL.
    rewrite swapIndex_nth by (rewrite HL; lia).
    rewrite !HN by lia.
    destruct (Nat.eqb_spec idx (List.length l - k - 1));
      destruct (Nat.eqb_spec idx k);
      destruct (Nat.ltb_spec idx k);
      destruct (Nat.ltb_spec idx (S k));
      destruct (Nat.ltb_spec k k);
      destruct (Nat.ltb_spec (List.length l - k - 1) k);
      destruct (Nat.leb_spec (List.length l - k) idx);
      destruct (Nat.leb_spec (List.length l - S k) idx);
      destruct (Nat.leb_spec (List.length l - k) k);
      destruct (Nat.leb_spec (List.length l - k) (List.length l - k - 1));
      cbn [orb]; try lia; subst; try reflexivity; f_equal; lia.
Qed.

Lemma reverseInPlace_rev_eq (slice : list string) :
  reverseInPlace slice = rev slice.
Proof.
  unfold reverseInPlace.
  assert (H2 : (2 * (List.length slice / 2) <= List.length slice)%nat).
  { pose proof (Nat.div_mod_eq (List.length slice) 2). lia. }
  destruct (reverse_rounds slice _ H2) as [HL HN].
  apply (nth_ext _ _ "" ""); [now rewrite HL, length_rev|].
  intros idx Hi. rewrite HL in Hi. rewrite (HN idx Hi).
  rewrite rev_nth by exact Hi.
  replace (List.length slice - 1 - idx)%nat
    with (List.length slice - S idx)%nat by lia.
  assert (Hmod : (List.length slice mod 2 < 2)%nat)
    by (apply Nat.mod_upper_bound; lia).
  pose proof (Nat.div_mod_eq (List.length slice) 2) as HD.
  destruct (Nat.ltb_spec idx (List.length slice / 2));
    destruct (Nat.leb_spec (List.length slice - List.length slice / 2) idx);
    cbn [orb]; try reflexivity.
  f_equal. lia.
Qed.

(** X23: the swapping loop of [reverse] and [reverse6] reverses the
    slice it is given, of any length, in place: element [i] of the result
    is element [len - 1 - i] of the slice, and running the loop twice
    gives the slice back. *)
Theorem reverseInPlace_is_rev (slice : list string) :
  reverseInPlace slice = rev slice
  /\ List.length (reverseInPlace slice) = List.length slice
  /\ reverseInPlace (reverseInPlace slice) = slice.
Proof.
  rewrite !reverseInPlace_rev_eq. split; [reflexivity|].
  split; [apply length_rev|apply rev_involutive].
Qed.

Section ReverseFacts.

Variable ParseIP_To4 : string -> option string.
Variable ParseIP_To16 : string -> option string.

Abbreviation extract := (ExtractAddressFromReverse ParseIP_To4 ParseIP_To16).

(** X24: [ExtractAddressFromReverse] hands to [net.ParseIP] the labels
    in front of the reverse suffix in the opposite order: joined with
    dots under ".in-addr.arpa.", and under ".ip6.arpa." in groups of four
    joined with colons; the result is what [ParseIP] makes of it, or the
    empty string.  For a name outside the three reverse trees the result
    is the empty string. *)
Theorem ExtractAddressFromReverse_reverses (labels : list string) :
  labels <> [] ->
  Forall (fun label => lacks "." label = true) labels ->
  extract (Join labels "." ++ IP4arpa)
  = match ParseIP_To4 (Join (rev labels) ".") with
    | Some ip => ip
    | None => EmptyString
    end
  /\ extract (Join labels "." ++ IP6arpa)
     = match ParseIP_To16 (Join (groupsOfFour (rev labels)) ":") with
       | Some ip => ip
       | None => EmptyString
       end
  /\ (forall name, IsReverse name = 0 -> extract name = EmptyString).
Proof.
  intros N F. unfold ExtractAddressFromReverse.
  assert (S4 : HasSuffix (Join labels "." ++ IP4arpa) IP4arpa = true)
    by (apply HasSuffix_iff; eexists; reflexivity).
  assert (S6 : HasSuffix (Join labels "." ++ IP6arpa) IP6arpa = true)
    by (apply HasSuffix_iff; eexists; reflexivity).
  assert (S64 : HasSuffix (Join labels "." ++ IP6arpa) IP4arpa = false).
  { destruct (HasSuffix (Join labels "." ++ IP6arpa) IP4arpa) eqn:E;
      [|reflexivity].
    rewrite (HasSuffix_exclusive _ IP4arpa IP6arpa E) in S6;
      [discriminate|vm_compute; lia|reflexivity]. }
  split; [|split].
  - rewrite S4, TrimSuffix_app, (Split1_Join "." labels N F).
    unfold reverse. now rewrite reverseInPlace_rev_eq.
  - rewrite S64, S6, TrimSuffix_app, (Split1_Join "." labels N F).
    unfold reverse6. now rewrite reverseInPlace_rev_eq.
  - intros name H0. unfold IsReverse in H0.
    destruct (HasSuffix name IP4arpa); [discriminate|].
    destruct (HasSuffix name IP6arpa); [discriminate|].
    destruct (HasSuffix name SCIONarpa); [discriminate|reflexivity].
Qed.

End ReverseFacts.

Lemma ExtractAddressFromReverse_reverses_witness :
  ExtractAddressFromReverse sampleParseIP_To4 sampleParseIP_To16
    "1.0.0.127.in-addr.arpa." = "127.0.0.1"
  /\ ExtractAddressFromReverse sampleParseIP_To4 sampleParseIP_To16
       (Join ["1"; "0"; "0"; "127"] "." ++ IP6arpa)
     = match sampleParseIP_To16
               (Join (groupsOfFour (rev ["1"; "0"; "0"; "127"])) ":") with
       | Some ip => ip
       | None => EmptyString
       end
  /\ (forall name, IsReverse name = 0 ->
        ExtractAddressFromReverse sampleParseIP_To4 sampleParseIP_To16 name
        = EmptyString).
Proof.
  apply (ExtractAddressFromReverse_reverses
           sampleParseIP_To4 sampleParseIP_To16 ["1"; "0"; "0"; "127"]).
  - discriminate.
  - repeat constructor.
Defined.

(* ================================================================== *)
(** * Properties of the QUIC listener *)

(** X25: when [ServePacket] fails before its accept loop - the server
    has no TLS configuration, or the listener cannot be opened - it
    returns the error with the mutex still locked: no session is ever
    accepted, and a [Stop] that follows waits for the mutex without
    end. *)
Theorem ServePacket_failure_keeps_mutex (st : ServerState)
        (listenResult : option error) (accepts : list (Z + error))
        (closeResult : option error) :
  m_locked st = false ->
  has_tlsConfig st = false \/ listenResult <> None ->
  exists e st' ev,
    ServePacket st listenResult accepts = (Done (Some e), st', ev)
    /\ m_locked st' = true
    /\ listening st' = listening st
    /\ (forall session, ~ In (GoSession session) ev)
    /\ Stop st' closeResult = (Waits, st', []).
Proof.
  intros HL HF. unfold ServePacket. rewrite HL.
  destruct (has_tlsConfig st) eqn:HT; cbn [negb].
  - destruct HF as [|HF]; [discriminate|].
    destruct listenResult as [e|]; [|congruence].
    eexists _, _, _. split; [reflexivity|]. cbn.
    repeat split. intros session [H|[]]. discriminate.
  - eexists _, _, _. split; [reflexivity|]. cbn.
    repeat split. intros session [].
Qed.

Lemma ServePacket_failure_keeps_mutex_witness :
  exists e st' ev,
    ServePacket {| m_locked := false; has_tlsConfig := false;
                   listening := false |} None [inl 1; inl 2]
    = (Done (Some e), st', ev)
    /\ m_locked st' = true
    /\ listening st' = false
    /\ (forall session, ~ In (GoSession session) ev)
    /\ Stop st' None = (Waits, st', []).
Proof.
  apply (ServePacket_failure_keeps_mutex
           {| m_locked := false; has_tlsConfig := false; listening := false |}
           None [inl 1; inl 2] None).
  - reflexivity.
  - left. reflexivity.
Defined.

Lemma acceptLoop_result (accepts : list (Z + error)) (e : option error)
      (ev : list ListenerEvent) :
  acceptLoop accepts = (Done e, ev) ->
  exists sessions x rest,
    accepts = map inl sessions ++ inr x :: rest
    /\ e = Some x
    /\ ev = map GoSession sessions.
Proof.
  revert ev. induction accepts as [|[s|x] rest IH]; intros ev; cbn.
  - discriminate.
  - destruct (acceptLoop rest) as [e' ev'] eqn:HA.
    intros [= -> <-].
    destruct (IH ev' eq_refl) as (sessions & y & rest' & -> & -> & ->).
    exists (s :: sessions), y, rest'. repeat split.
  - intros [= <- <-]. exists [], x, rest. repeat split.
Qed.

(** X26: a server with a TLS configuration whose listener opens
    releases the mutex before it accepts; when [ServePacket] returns, it
    returns the error of the first failing [Accept], every session
    accepted before that got its goroutine, in order, none after it did,
    and a [Stop] that follows closes the listener and returns. *)
Theorem ServePacket_serves_until_accept_fails (st : ServerState)
        (accepts : list (Z + error)) (e : option error)
        (st' : ServerState) (ev : list ListenerEvent)
        (closeResult : option error) :
  m_locked st = false ->
  has_tlsConfig st = true ->
  ServePacket st None accepts = (Done e, st', ev) ->
  m_locked st' = false
  /\ listening st' = true
  /\ (exists sessions x rest,
        accepts = map inl sessions ++ inr x :: rest
        /\ e = Some x
        /\ ev = QuicListen :: map GoSession sessions)
  /\ Stop st' closeResult = (Done closeResult, st', [ListenClose]).
Proof.
  intros HL HT. unfold ServePacket. rewrite HL, HT. cbn [negb].
  destruct (acceptLoop accepts) as [e' ev'] eqn:HA.
  intros [= -> <- <-]. cbn.
  repeat split.
  destruct (acceptLoop_result accepts e ev' HA)
    as (sessions & x & rest & -> & -> & ->).
  exists sessions, x, rest. repeat split.
Qed.

Lemma ServePacket_serves_until_accept_fails_witness :
  m_locked {| m_locked := false; has_tlsConfig := true; listening := true |}
  = false
  /\ listening {| m_locked := false; has_tlsConfig := true;
                  listening := true |} = true
  /\ (exists sessions x rest,
        [inl 1; inl 2; inr (other_error "server closed"); inl 3]
        = map inl sessions ++ inr x :: rest
        /\ Some (other_error "server closed") = Some x
        /\ [QuicListen; GoSession 1; GoSession 2]
           = QuicListen :: map GoSession sessions)
  /\ Stop {| m_locked := false; has_tlsConfig := true; listening := true |}
          None
     = (Done None,
        {| m_locked := false; has_tlsConfig := true; listening := true |},
        [ListenClose]).
Proof.
  apply (ServePacket_serves_until_accept_fails
           {| m_locked := false; has_tlsConfig := true; listening := false |}
           [inl 1; inl 2; inr (other_error "server closed"); inl 3]).
  - reflexivity.
  - reflexivity.
  - reflexivity.
Defined.

(* ================================================================== *)
(** * Properties of SCION reverse names *)

Lemma lacks_app (c : ascii) (a b : string) :
  lacks c (a ++ b) = lacks c a && lacks c b.
Proof.
  induction a as [|x a IH]; [reflexivity|].
  cbn. rewrite IH. now rewrite andb_assoc.
Qed.

Lemma allDigits_lacks (c : ascii) (s : string) :
  (48 <=? byteval c) && (byteval c <=? 57) = false ->
  allDigits s = true -> lacks c s = true.
Proof.
  intros Hc. induction s as [|x s IH]; [reflexivity|]. cbn. intros H.
  apply andb_true_iff in H. destruct H as [Hx Hs].
  rewrite (IH Hs), andb_true_r.
  destruct (Ascii.eqb_spec x c) as [->|]; [congruence|reflexivity].
Qed.

Lemma Join_dots_lacks (c : ascii) (labels : list string) :
  (c =? ".")%char = false ->
  Forall (fun label => lacks c label = true) labels ->
  lacks c (Join labels ".") = true.
Proof.
  intros Hc. unfold Join. induction 1 as [|l ls Hl _ IH]; [reflexivity|].
  destruct ls as [|l' ls']; [exact Hl|].
  change (String.concat "." (l :: l' :: ls'))
    with (l ++ "." ++ String.concat "." (l' :: ls'))%string.
  rewrite !lacks_app, Hl, IH.
  cbn [lacks andb]. rewrite Ascii.eqb_sym, Hc. reflexivity.
Qed.

Lemma prefix_app (a b : string) : prefix a (a ++ b) = true.
Proof.
  induction a as [|x a IH]; [now destruct b|].
  cbn. destruct (ascii_dec x x); [exact IH|congruence].
Qed.

Lemma Contains_app (a sub b : string) : Contains (a ++ sub ++ b) sub = true.
Proof.
  induction a as [|x a IH].
  - cbn [String.append]. destruct (sub ++ b)%string eqn:E; cbn [Contains];
      rewrite <- E, prefix_app; reflexivity.
  - cbn [String.append Contains]. rewrite IH. apply orb_true_r.
Qed.

(** In a string without dots the separator ".in-addr." does not occur. *)
Lemma Split_InAddr4_lacks (s : string) :
  lacks "." s = true -> Split s InAddr4 = [s].
Proof.
  unfold Split. induction s as [|x s IH]; [reflexivity|].
  cbn [lacks]. intros L. apply andb_true_iff in L. destruct L as [Lx Ls].
  apply negb_true_iff, Ascii.eqb_neq in Lx.
  cbn [SplitFrom InAddr4 prefix].
  destruct (ascii_dec "." x) as [E|_]; [congruence|].
  now rewrite (IH Ls).
Qed.

(** The one occurrence of ".in-addr." between a host part without the
    letter i and an ISD-AS part without dots. *)
Lemma Split_InAddr4 (host isas : string) :
  lacks "i" host = true -> lacks "." isas = true ->
  Split (host ++ InAddr4 ++ isas) InAddr4 = [host; isas].
Proof.
  intros Lh Li. induction host as [|x h IH].
  - pose proof (Split_InAddr4_lacks isas Li) as HS. unfold Split in *.
    change ("" ++ InAddr4 ++ isas)%string
      with (String "." ("in-addr." ++ isas)).
    cbn [SplitFrom].
    replace (prefix InAddr4 (String "." ("in-addr." ++ isas))) with true
      by (symmetry; apply (prefix_app InAddr4 isas)).
    cbn [String.length InAddr4 Nat.sub String.append SplitFrom].
    now rewrite HS.
  - cbn [lacks] in Lh. apply andb_true_iff in Lh. destruct Lh as [Lx Lh].
    apply negb_true_iff, Ascii.eqb_neq in Lx.
    specialize (IH Lh). unfold Split in *.
    cbn [String.append SplitFrom].
    replace (prefix InAddr4 (String x (h ++ InAddr4 ++ isas))) with false.
    + now rewrite IH.
    + symmetry. cbn [InAddr4 prefix].
      destruct (ascii_dec "." x) as [_|_]; [|reflexivity].
      destruct h as [|y h'].
      * reflexivity.
      * cbn [lacks] in Lh. apply andb_true_iff in Lh. destruct Lh as [Ly _].
        apply negb_true_iff, Ascii.eqb_neq in Ly.
        cbn [String.append prefix].
        destruct (ascii_dec "i" y) as [E|_]; [congruence|reflexivity].
Qed.

(** Un-inverting an inverted ISD-AS number. *)
Lemma uninvertISAS_inverted (isd a b c : string) :
  lacks ":" isd = true -> lacks "-" isd = true ->
  lacks "-" a = true -> lacks "-" b = true -> lacks "-" c = true ->
  uninvertISAS (isd ++ "-" ++ a ++ "-" ++ b ++ "-" ++ c)
  = ((isd ++ "-" ++ a ++ ":" ++ b ++ ":" ++ c)%string, None).
Proof.
  intros Ci Hi Ha Hb Hc. unfold uninvertISAS. cbn [String.append].
  rewrite (Count1_app "-" isd _ Hi), (Count1_app "-" a _ Ha),
    (Count1_app "-" b _ Hb), (Count1_lacks "-" c Hc).
  cbn [Z.add Pos.add Pos.succ Z.eqb Pos.eqb negb].
  rewrite (Replace1_app "-" ":" isd _ (-1) Hi) by lia. cbn [Z.ltb Z.compare].
  rewrite (Replace1_app "-" ":" a _ (-1) Ha) by lia. cbn [Z.ltb Z.compare].
  rewrite (Replace1_app "-" ":" b _ (-1) Hb) by lia. cbn [Z.ltb Z.compare].
  rewrite (Replace1_lacks "-" ":" c (-1) Hc).
  rewrite (Replace1_app ":" "-" isd _ 1 Ci) by lia.
  cbn [Z.ltb Z.compare Z.sub Z.add Z.opp Z.pos_sub].
  rewrite Replace_zero. reflexivity.
Qed.

Section SCIONFacts.

Variable ParseIP_To4 : string -> option string.
Variable ParseIP_To16 : string -> option string.

(** X27: for the reverse name of a SCION address with an IPv4 host -
    the host's octets as labels, ".in-addr.", the ISD-AS number with
    hyphens, ".scion.arpa." - [UnReverseSCION] and
    [ExtractAddressFromReverse] return the ISD-AS number with its colons
    back, a comma, and what [net.ParseIP] makes of the octets in the
    opposite order (the empty string when it rejects them). *)
Theorem UnReverseSCION_of_IPv4_name (labels : list string)
        (isd a b c : string) :
  labels <> [] ->
  Forall (fun label => allDigits label = true) labels ->
  lacks ":" isd = true -> lacks "-" isd = true -> lacks "." isd = true ->
  lacks "-" a = true -> lacks "." a = true ->
  lacks "-" b = true -> lacks "." b = true ->
  lacks "-" c = true -> lacks "." c = true ->
  UnReverseSCION ParseIP_To4 ParseIP_To16
    (Join labels "." ++ InAddr4
       ++ (isd ++ "-" ++ a ++ "-" ++ b ++ "-" ++ c) ++ SCIONarpa)
  = ((isd ++ "-" ++ a ++ ":" ++ b ++ ":" ++ c) ++ ","
       ++ match ParseIP_To4 (Join (rev labels) ".") with
          | Some ip => ip
          | None => EmptyString
          end)%string
  /\ ExtractAddressFromReverse ParseIP_To4 ParseIP_To16
       (Join labels "." ++ InAddr4
          ++ (isd ++ "-" ++ a ++ "-" ++ b ++ "-" ++ c) ++ SCIONarpa)
     = UnReverseSCION ParseIP_To4 ParseIP_To16
         (Join labels "." ++ InAddr4
            ++ (isd ++ "-" ++ a ++ "-" ++ b ++ "-" ++ c) ++ SCIONarpa).
Proof.
  intros N F Ci Hi Di Ha Da Hb Db Hc Dc.
  set (inv := (isd ++ "-" ++ a ++ "-" ++ b ++ "-" ++ c)%string).
  set (host := Join labels ".").
  assert (Fdot : Forall (fun label => lacks "." label = true) labels).
  { eapply Forall_impl; [|exact F]. intros l. apply allDigits_lacks_dot. }
  assert (Fi : Forall (fun label => lacks "i" label = true) labels).
  { eapply Forall_impl; [|exact F]. intros l.
    apply allDigits_lacks. reflexivity. }
  assert (Lhost : lacks "i" host = true)
    by (apply Join_dots_lacks; [reflexivity|exact Fi]).
  assert (Linv : lacks "." inv = true).
  { unfold inv. rewrite !lacks_app, Di, Da, Db, Dc. reflexivity. }
  assert (Name : (host ++ InAddr4 ++ inv ++ SCIONarpa)%string
                 = ((host ++ InAddr4 ++ inv) ++ SCIONarpa)%string)
    by (now rewrite !str_app_assoc).
  assert (Suf : HasSuffix (host ++ InAddr4 ++ inv ++ SCIONarpa) SCIONarpa
                = true)
    by (apply HasSuffix_iff; exists (host ++ InAddr4 ++ inv)%string;
        exact Name).
  assert (Un : UnReverseSCION ParseIP_To4 ParseIP_To16
                 (host ++ InAddr4 ++ inv ++ SCIONarpa)
               = ((isd ++ "-" ++ a ++ ":" ++ b ++ ":" ++ c) ++ ","
                    ++ match ParseIP_To4 (Join (rev labels) ".") with
                       | Some ip => ip
                       | None => EmptyString
                       end)%string).
  { unfold UnReverseSCION. rewrite Suf. cbn [negb].
    rewrite Name, TrimSuffix_app, Contains_app.
    rewrite (Split_InAddr4 host inv Lhost Linv).
    unfold inv. rewrite (uninvertISAS_inverted isd a b c Ci Hi Ha Hb Hc).
    unfold reverse, host.
    rewrite (Split1_Join "." labels N Fdot), reverseInPlace_rev_eq.
    reflexivity. }
  split; [exact Un|].
  unfold ExtractAddressFromReverse.
  destruct (HasSuffix (host ++ InAddr4 ++ inv ++ SCIONarpa) IP4arpa) eqn:E4.
  { rewrite (HasSuffix_exclusive _ IP4arpa SCIONarpa E4) in Suf;
      [discriminate|vm_compute; lia|reflexivity]. }
  rewrite (HasSuffix_exclusive _ SCIONarpa IP6arpa Suf);
    [|vm_compute; lia|reflexivity].
  now rewrite Suf.
Qed.

End SCIONFacts.

Lemma UnReverseSCION_of_IPv4_name_witness :
  UnReverseSCION sampleParseIP_To4 sampleParseIP_To16
    "1.0.0.127.in-addr.19-ffaa-1-1067.scion.arpa."
  = "19-ffaa:1:1067,127.0.0.1"
  /\ ExtractAddressFromReverse sampleParseIP_To4 sampleParseIP_To16
       "1.0.0.127.in-addr.19-ffaa-1-1067.scion.arpa."
     = UnReverseSCION sampleParseIP_To4 sampleParseIP_To16
         "1.0.0.127.in-addr.19-ffaa-1-1067.scion.arpa.".
Proof.
  apply (UnReverseSCION_of_IPv4_name
           sampleParseIP_To4 sampleParseIP_To16
           ["1"; "0"; "0"; "127"] "19" "ffaa" "1" "1067");
    solve [discriminate | reflexivity | repeat constructor].
Defined.

(* ================================================================== *)
(** * The goroutine around the handler *)

Section WorkerFacts.

Variable Unpack : list byte -> Msg + error.
Variable Pack : Msg -> list byte.
Variable ServeDNS : Msg -> option Msg.
Variable stream_Write : list byte -> Z * option error.

(** The handler itself closes the stream in one case only: the chain
    left no message; it then returns. *)
Lemma handler_closes_stream_iff (k : ServerKind) (b data : list byte) :
  (In StreamClose
      (fst (handleQUICStream Unpack Pack ServeDNS stream_Write k b data))
   <-> exists n b' msg,
        readFrame b data = FrameOk n b'
        /\ Unpack (skipn 2 b') = inl msg
        /\ ServeDNS msg = None)
  /\ (In StreamClose
        (fst (handleQUICStream Unpack Pack ServeDNS stream_Write k b data))
      -> snd (handleQUICStream Unpack Pack ServeDNS stream_Write k b data)
         = Returned).
Proof.
  unfold handleQUICStream.
  destruct (readFrame b data) as [| |n b'] eqn:HF.
  - cbn. split; [split; [intros []|]|intros []].
    intros (n & b' & msg & H & _). discriminate.
  - cbn. split; [split; [intros []|]|intros []].
    intros (n & b' & msg & H & _). discriminate.
  - destruct (Unpack (skipn 2 b')) as [msg|e] eqn:HU.
    + destruct (ServeDNS msg) as [response|] eqn:HS.
      * destruct (writeResponse stream_Write k (Pack response))
          as [ev out] eqn:HW.
        cbn [fst snd].
        assert (No : ~ In StreamClose
                       ((keepaliveCheck msg ++ [ChainServeDNS msg]) ++ ev)).
        { intros H. apply in_app_or in H. destruct H as [H|H].
          - apply in_app_or in H. destruct H as [H|[H|[]]].
            + apply keepaliveCheck_only_closes in H. discriminate.
            + discriminate.
          - assert (E : ev = fst (writeResponse stream_Write k
                                    (Pack response)))
              by (now rewrite HW).
            rewrite E in H. unfold writeResponse in H.
            destruct (stream_Write (addPrefix (Pack response)))
              as [cnt [err|]];
              destruct k; cbn [fst] in H;
              try destruct (negb (cnt =? len (Pack response)));
              try destruct (is_net_Error err);
              cbn in H; intuition discriminate. }
        split; [split|]; [tauto| |tauto].
        intros (n0 & b0 & msg0 & H1 & H2 & H3).
        injection H1 as <- <-. rewrite HU in H2. injection H2 as <-.
        congruence.
      * cbn [fst snd]. split; [split|]; [| |reflexivity].
        -- intros _. now exists n, b', msg.
        -- intros _. apply in_or_app. right. right. left. reflexivity.
    + cbn [fst snd]. split; [split|]; [| |reflexivity].
      * cbn. intuition discriminate.
      * intros (n0 & b0 & msg0 & H1 & H2 & _).
        injection H1 as <- <-. rewrite HU in H2. discriminate.
Qed.

(** X28: the goroutine that [handleQUICSession] starts for a stream
    closes the stream as its last action when the handler returns, and
    never when the handler panics.  When the chain left no message the
    handler has closed the stream itself before, so that [stream.Close]
    is called twice on it; in every other case the goroutine's call is
    the only one. *)
Theorem streamWorker_closes_stream (k : ServerKind) (b data : list byte) :
  match snd (streamWorker Unpack Pack ServeDNS stream_Write k b data) with
  | Finished =>
      exists ev,
        fst (streamWorker Unpack Pack ServeDNS stream_Write k b data)
        = ev ++ [StreamClose]
        /\ ev = fst (handleQUICStream Unpack Pack ServeDNS stream_Write
                       k b data)
        /\ (In StreamClose ev
            <-> exists n b' msg,
                 readFrame b data = FrameOk n b'
                 /\ Unpack (skipn 2 b') = inl msg
                 /\ ServeDNS msg = None)
  | ProgramCrash _ =>
      ~ In StreamClose
          (fst (streamWorker Unpack Pack ServeDNS stream_Write k b data))
  end.
Proof.
  destruct (handler_closes_stream_iff k b data) as [A B].
  unfold streamWorker.
  destruct (handleQUICStream Unpack Pack ServeDNS stream_Write k b data)
    as [ev [|reason]]; cbn [fst snd] in *.
  - exists ev. split; [reflexivity|]. split; [reflexivity|exact A].
  - intros H. apply B in H. discriminate.
Qed.

End WorkerFacts.

(* ================================================================== *)
(** * The running average of the dial time *)

(** X29: one call of [averageTimeout] with the weight of the package
    leaves the average between its old value and the observed duration,
    so that it never overshoots; and since the quotient is truncated, the
    average stays where it is exactly when it is less than 4 ns away from
    the observed duration. *)
Theorem averageTimeout_no_overshoot (avg observed : Z) :
  0 <= avg < 2 ^ 62 -> 0 <= observed < 2 ^ 62 ->
  Z.min avg observed
  <= averageTimeout avg observed cumulativeAvgWeight
  <= Z.max avg observed
  /\ (averageTimeout avg observed cumulativeAvgWeight = avg
      <-> Z.abs (observed - avg) < 4).
Proof.
  intros Ha Ho. rewrite averageTimeout_exact by assumption.
  Z.to_euclidean_division_equations. lia.
Qed.

Lemma averageTimeout_no_overshoot_witness :
  Z.min 1000 5000
  <= averageTimeout 1000 5000 cumulativeAvgWeight
  <= Z.max 1000 5000
  /\ (averageTimeout 1000 5000 cumulativeAvgWeight = 1000
      <-> Z.abs (5000 - 1000) < 4).
Proof.
  apply (averageTimeout_no_overshoot 1000 5000); lia.
Defined.
